(** * uptime-kuma-bridge: the HTTP to Socket.IO bridge of [src/index.ts]

    A shallow embedding of the bridge: the JSON values its handlers
    inspect, the socket registry [sockets], the establishment promise of
    [connectSocket], the three push listeners that maintain the monitor
    cache, and the three Express handlers with their response object and
    acknowledgement timer.  The event loop is a step function on a
    [Server] state; every callback of the source is one branch of it. *)

From stdpp Require Import gmap strings list fin_maps pretty.

Set Warnings "-register-all".
Set Default Proof Using "Type".

(** ** JSON values *)

(** The values that [express.json()] and the Socket.IO parser hand to
    the code (typed [any] in the source).  Numbers are the integral ones,
    of the size that [String(n)] writes as a decimal numeral. *)
Inductive JSValue :=
| JUndefined
| JNull
| JBool (b : bool)
| JNum (n : Z)
| JStr (s : string)
| JArr (items : list JSValue)
| JObj (props : list (string * JSValue)).

(** An object as a dictionary: its own enumerable properties, oldest
    first.  The two keys that do not behave as dictionary keys where the
    source writes or deletes, [__proto__] and the [length] of an array,
    are dealt with there ([on_updateMonitorIntoList], [push_entry]).  The
    dictionary does not move integer-like keys to the front of the
    enumeration (no property below depends on that order). *)
Abbreviation JSObject := (list (string * JSValue)).

(** [!v] is [negb (ToBoolean v)]. *)
Definition ToBoolean (v : JSValue) : bool :=
  match v with
  | JUndefined | JNull => false
  | JBool b => b
  | JNum n => negb (n =? 0)%Z
  | JStr s => negb (String.eqb s "")
  | JArr _ | JObj _ => true
  end.

(** The key under which [o[v]] reads or writes.  A number is written as
    its decimal numeral, which is what [String(n)] gives for the integers
    that JSON carries exactly ([exact_key] below). *)
Fixpoint ToPropertyKey (v : JSValue) : string :=
  match v with
  | JUndefined => "undefined"
  | JNull => "null"
  | JBool b => if b then "true" else "false"
  | JNum n => pretty n
  | JStr s => s
  | JArr items =>
      String.concat ","
        (map (λ x, match x with
                   | JUndefined | JNull => ""
                   | _ => ToPropertyKey x
                   end) items)
  | JObj _ => "[object Object]"
  end.

(** The values whose key [ToPropertyKey] gives exactly as the program
    does: every value but a number beyond [Number.MAX_SAFE_INTEGER] in
    absolute value (from 1e21 on [String(n)] is in exponent form) and but
    an array, whose elements would need the same care. *)
Definition exact_key (v : JSValue) : bool :=
  match v with
  | JNum n => bool_decide (- (2 ^ 53 - 1) ≤ n ≤ 2 ^ 53 - 1)%Z
  | JArr _ => false
  | _ => true
  end.

(** [a ?? b] *)
Definition nullish (a b : JSValue) : JSValue :=
  match a with
  | JUndefined | JNull => b
  | _ => a
  end.

(** [v === "s"] for a string literal on the right. *)
Definition strict_eq_str (v : JSValue) (s : string) : bool :=
  match v with
  | JStr s' => bool_decide (s' = s)
  | _ => false
  end.

(** [o[k]] on a plain object; a missing property reads [undefined]. *)
Fixpoint obj_get (o : JSObject) (k : string) : JSValue :=
  match o with
  | [] => JUndefined
  | (k', v) :: o' => if decide (k' = k) then v else obj_get o' k
  end.

(** [o[k] = v]: an existing property keeps its place, a new one is added. *)
Fixpoint obj_set (o : JSObject) (k : string) (v : JSValue) : JSObject :=
  match o with
  | [] => [(k, v)]
  | (k', v') :: o' =>
      if decide (k' = k) then (k, v) :: o' else (k', v') :: obj_set o' k v
  end.

(** [delete o[k]]; deleting a missing property is not an error. *)
Definition obj_delete (o : JSObject) (k : string) : JSObject :=
  filter (λ p, p.1 ≠ k) o.

(** [Object.values(o)] *)
Definition Object_values (o : JSObject) : list JSValue := o.*2.

(** [v.k] for the property names the source reads ([id], [ok], [type],
    [name]): a [TypeError] ([None]) on [undefined] and [null], the own
    property of an object, [undefined] on every other value. *)
Definition get (v : JSValue) (k : string) : option JSValue :=
  match v with
  | JUndefined | JNull => None
  | JObj props => Some (obj_get props k)
  | _ => Some JUndefined
  end.

(** ** The monitor cache (lines 47-61) *)

(** The three push events and their payloads. *)
Inductive Push :=
| monitorList (data : JSObject)
| updateMonitorIntoList (data : JSObject)
| deleteMonitorFromList (monitorId : JSValue).

(** [sockets[uri].monitors = data] *)
Definition on_monitorList (data : JSObject) (monitors : JSObject) : JSObject :=
  data.

(** [data = Object.values(data)[0]; sockets[uri].monitors[data.id] = data].
    The assignment to the key [__proto__] of a cache that has no own
    property of that name reaches the setter of [Object.prototype]: it
    replaces the prototype of the cache by the entity and adds no
    property. *)
Definition on_updateMonitorIntoList (data : JSObject) (monitors : JSObject)
  : option JSObject :=
  let data' := nth 0 (Object_values data) JUndefined in
  id ← get data' "id";
  let k := ToPropertyKey id in
  Some (if bool_decide (k = "__proto__") && negb (bool_decide (k ∈ monitors.*1))
        then monitors
        else obj_set monitors k data').

(** [delete sockets[uri].monitors[monitorId]] on the enumerable properties
    of the cache. *)
Definition on_deleteMonitorFromList (monitorId : JSValue) (monitors : JSObject)
  : JSObject :=
  obj_delete monitors (ToPropertyKey monitorId).

(** What a push does to the enumerable properties of the cache; the
    [length] of a cache that is an array is the business of [push_entry]. *)
Definition apply_push (p : Push) (monitors : JSObject) : option JSObject :=
  match p with
  | monitorList data => Some (on_monitorList data monitors)
  | updateMonitorIntoList data => on_updateMonitorIntoList data monitors
  | deleteMonitorFromList monitorId =>
      Some (on_deleteMonitorFromList monitorId monitors)
  end.

(** *** The reference mapping of the specification

    Follows the specification's wording, not the source: a finite map from
    entity ID to entity, replaced wholesale on a full list, written at the
    entity's ID on an upsert whose envelope holds exactly one entity, and
    with the key removed on a delete.  An entity ID is a string or an
    integer; in a full list, which is a JSON object, an ID is written as a
    string, an integer as its decimal numeral. *)
Module Reference.

Definition key (id : JSValue) : option string :=
  match id with
  | JStr s => Some s
  | JNum n =>
      if bool_decide (- (2 ^ 53 - 1) ≤ n ≤ 2 ^ 53 - 1)%Z then Some (pretty n) else None
  | _ => None
  end.

Definition replay_one (p : Push) (m : gmap string JSValue)
  : option (gmap string JSValue) :=
  match p with
  | monitorList data => Some (list_to_map data)
  | updateMonitorIntoList [(_, JObj props)] =>
      k ← key (obj_get props "id"); Some (<[k := JObj props]> m)
  | updateMonitorIntoList _ => None
  | deleteMonitorFromList monitorId => k ← key monitorId; Some (delete k m)
  end.

Fixpoint replay (ps : list Push) (m : gmap string JSValue)
  : option (gmap string JSValue) :=
  match ps with
  | [] => Some m
  | p :: ps' => m' ← replay_one p m; replay ps' m'
  end.

End Reference.

(** A push as the transport interface describes it, with IDs that are not
    names with a meaning of their own on a JavaScript array or object: a
    full list is an object (its keys are distinct); an upsert envelope
    has exactly one value, an entity whose ID is neither [length] nor
    [__proto__]; the ID of a delete is not [length]. *)
Definition wf_push (p : Push) : Prop :=
  match p with
  | monitorList data => NoDup data.*1
  | updateMonitorIntoList data =>
      ∃ k props id,
        data = [(k, JObj props)]
        ∧ Reference.key (obj_get props "id") = Some id
        ∧ id ≠ "length" ∧ id ≠ "__proto__"
  | deleteMonitorFromList monitorId =>
      ∃ id, Reference.key monitorId = Some id ∧ id ≠ "length"
  end.

(** ** The query bodies (lines 133 and 154-161) *)

(** [Object.values(sockets[uri].monitors)] *)
Definition monitors_body (monitors : JSObject) : JSValue :=
  JArr (Object_values monitors).

(** [(m) => m.type === "group"] *)
Definition is_group (m : JSValue) : option bool :=
  t ← get m "type"; Some (strict_eq_str t "group").

(** [(group) => ({ id: group.id, name: group.name })] *)
Definition id_and_name (group : JSValue) : option JSValue :=
  id ← get group "id";
  name ← get group "name";
  Some (JObj [("id", id); ("name", name)]).

(** [Array.prototype.filter] with a callback that may throw. *)
Fixpoint js_filter (f : JSValue → option bool) (l : list JSValue)
  : option (list JSValue) :=
  match l with
  | [] => Some []
  | x :: l' =>
      b ← f x;
      r ← js_filter f l';
      Some (if b : bool then x :: r else r)
  end.

(** [Array.prototype.map] with a callback that may throw. *)
Fixpoint js_map (f : JSValue → option JSValue) (l : list JSValue)
  : option (list JSValue) :=
  match l with
  | [] => Some []
  | x :: l' => y ← f x; r ← js_map f l'; Some (y :: r)
  end.

Definition groups_body (monitors : JSObject) : option JSValue :=
  groups ← js_filter is_group (Object_values monitors);
  items ← js_map id_and_name groups;
  Some (JArr items).

(** ** The registry and the sockets (lines 15-77) *)

(** A socket is named by the order in which [io()] created it. *)
Abbreviation SocketId := nat.

(** [sockets[uri]]: [{ socket, monitors }].  [monitors] holds the own
    enumerable properties of the cache; [is_array] tells whether the cache
    is still the array of line 36 ([true]) or an object that a
    [monitorList] put in its place ([false]). *)
Record Entry := {
  socket : SocketId;
  monitors : JSObject;
  is_array : bool;
}.

(** The pushes that leave the cache object in place. *)
Definition keeps_cache (p : Push) : bool :=
  match p with
  | monitorList _ => false
  | _ => true
  end.

(** The pushes that write or delete the property [length]. *)
Definition on_length (p : Push) : bool :=
  match p with
  | monitorList _ => false
  | updateMonitorIntoList data =>
      match get (nth 0 (Object_values data) JUndefined) "id" with
      | Some id => bool_decide (ToPropertyKey id = "length")
      | None => false
      end
  | deleteMonitorFromList monitorId =>
      bool_decide (ToPropertyKey monitorId = "length")
  end.

(** A push listener on the entry of its destination (lines 47-61).  While
    the cache is the array of line 36, line 55 with the key [length]
    throws a [RangeError] (an entity is not an array length) and line 60
    with the key [length] throws a [TypeError] (the property cannot be
    deleted, and the code of a module is strict); every other key of an
    array is a property like that of an object. *)
Definition push_entry (p : Push) (e : Entry) : option Entry :=
  if is_array e && on_length p then None
  else
    m ← apply_push p (monitors e);
    Some {| socket := socket e; monitors := m;
            is_array := is_array e && keeps_cache p |}.

(** The listeners run in arrival order; a listener that throws stops the run. *)
Fixpoint push_entries (ps : list Push) (e : Entry) : option Entry :=
  match ps with
  | [] => Some e
  | p :: ps' => e' ← push_entry p e; push_entries ps' e'
  end.

(** The promise that [connectSocket] returned when it created the socket;
    [resolve] and [reject] act on a pending promise only. *)
Inductive PromiseState :=
| Pending
| Fulfilled
| Rejected (reason : JSValue).

(** What a socket created at line 31 carries: the variables its listeners
    close over ([uri], [credentials], [resolve]/[reject]), the [connected]
    flag kept by the client library, and the [login] emissions whose
    callback has not run yet. *)
Record SocketState := {
  sock_uri : string;
  sock_credentials : JSValue;
  connected : bool;
  promise : PromiseState;
  logins_pending : nat;
}.

(** ** The HTTP requests (lines 82-162) *)

Inductive Endpoint := Emit | Monitors | Groups.

(** One call [res.status(code).json(body)]; [res.json(body)] has code 200. *)
Record Response := {
  status : Z;
  body : JSValue;
}.

Inductive Phase :=
| AwaitSocket (s : SocketId)  (* suspended at [await connectSocket(...)] *)
| AwaitAck (s : SocketId)     (* emitted; the ack callback is registered *)
| Finished.                   (* the handler returned or threw *)

Record Request := {
  endpoint : Endpoint;
  req_uri : JSValue;
  req_event : JSValue;
  req_payload : JSValue;
  req_timeout : JSValue;
  timer_armed : bool;   (* [timeoutTimer] is set, has not fired, is not cleared *)
  phase : Phase;
  emitted : list (SocketId * JSValue * JSValue);
  responses : list Response;   (* every call [res.status(code).json(body)] that
                                  the handler and its callbacks make on [res],
                                  oldest first, also one on a [res] already
                                  answered *)
}.

Record Server := {
  sockets : gmap string Entry;
  socks : list SocketState;
  reqs : list Request;
}.

Definition init : Server := {| sockets := ∅; socks := []; reqs := [] |}.

Definition set_sockets (f : gmap string Entry → gmap string Entry) (w : Server)
  : Server :=
  {| sockets := f (sockets w); socks := socks w; reqs := reqs w |}.

Definition set_socks (f : list SocketState → list SocketState) (w : Server)
  : Server :=
  {| sockets := sockets w; socks := f (socks w); reqs := reqs w |}.

Definition set_reqs (f : list Request → list Request) (w : Server) : Server :=
  {| sockets := sockets w; socks := socks w; reqs := f (reqs w) |}.

Definition set_connected (b : bool) (st : SocketState) : SocketState :=
  {| sock_uri := sock_uri st; sock_credentials := sock_credentials st;
     connected := b; promise := promise st;
     logins_pending := logins_pending st |}.

Definition set_promise (p : PromiseState) (st : SocketState) : SocketState :=
  {| sock_uri := sock_uri st; sock_credentials := sock_credentials st;
     connected := connected st; promise := p;
     logins_pending := logins_pending st |}.

Definition set_logins_pending (n : nat) (st : SocketState) : SocketState :=
  {| sock_uri := sock_uri st; sock_credentials := sock_credentials st;
     connected := connected st; promise := promise st;
     logins_pending := n |}.

(** [connectSocket(uri, credentials)], lines 26-36: the socket the promise
    is about, and whether the promise is already resolved on return
    ([true], line 28) or still pending on a socket just created ([false]).
    [uri] is a string, as the signature has it, that [io()] accepts and
    that names no property inherited from [Object.prototype]. *)
Definition connectSocket (uri : string) (credentials : JSValue) (w : Server)
  : Server * (SocketId * bool) :=
  match sockets w !! uri with
  | Some e => (w, (socket e, true))
  | None =>
      let s := length (socks w) in
      let st := {| sock_uri := uri; sock_credentials := credentials;
                   connected := false; promise := Pending;
                   logins_pending := 0 |} in
      (set_sockets <[uri := {| socket := s; monitors := []; is_array := true |}]>
         (set_socks (λ l, l ++ [st]) w),
       (s, false))
  end.

Definition respond (code : Z) (b : JSValue) (r : Request) : Request :=
  {| endpoint := endpoint r; req_uri := req_uri r; req_event := req_event r;
     req_payload := req_payload r; req_timeout := req_timeout r;
     timer_armed := timer_armed r; phase := phase r; emitted := emitted r;
     responses := responses r ++ [{| status := code; body := b |}] |}.

Definition set_phase (p : Phase) (r : Request) : Request :=
  {| endpoint := endpoint r; req_uri := req_uri r; req_event := req_event r;
     req_payload := req_payload r; req_timeout := req_timeout r;
     timer_armed := timer_armed r; phase := p; emitted := emitted r;
     responses := responses r |}.

Definition set_timer (b : bool) (r : Request) : Request :=
  {| endpoint := endpoint r; req_uri := req_uri r; req_event := req_event r;
     req_payload := req_payload r; req_timeout := req_timeout r;
     timer_armed := b; phase := phase r; emitted := emitted r;
     responses := responses r |}.

Definition emit_on (s : SocketId) (event arg : JSValue) (r : Request) : Request :=
  {| endpoint := endpoint r; req_uri := req_uri r; req_event := req_event r;
     req_payload := req_payload r; req_timeout := req_timeout r;
     timer_armed := timer_armed r; phase := phase r;
     emitted := emitted r ++ [(s, event, arg)];
     responses := responses r |}.

Definition error_body (msg : string) : JSValue := JObj [("error", JStr msg)].

Definition socket_connected (w : Server) (s : SocketId) : bool :=
  match socks w !! s with
  | Some st => connected st
  | None => false
  end.

(** The code after [await connectSocket(uri, credentials)] once the promise
    is fulfilled with socket [s] (lines 100-112, 129-133, 150-161).  A
    handler that throws writes no response. *)
Definition resume (w : Server) (s : SocketId) (r : Request) : Request :=
  if negb (socket_connected w s) then
    set_phase Finished (respond 503 (error_body "Socket.IO disconnected") r)
  else
    match endpoint r with
    | Emit =>
        set_phase (AwaitAck s)
          (emit_on s (req_event r) (nullish (req_payload r) (JObj [])) r)
    | Monitors =>
        match sockets w !! ToPropertyKey (req_uri r) with
        | Some e => set_phase Finished (respond 200 (monitors_body (monitors e)) r)
        | None => set_phase Finished r
        end
    | Groups =>
        match sockets w !! ToPropertyKey (req_uri r) with
        | Some e =>
            match groups_body (monitors e) with
            | Some b => set_phase Finished (respond 200 b r)
            | None => set_phase Finished r
            end
        | None => set_phase Finished r
        end
    end.

(** The rejected [await] throws out of the handler: the handler makes no
    call on [res]. *)
Definition abort (r : Request) : Request := set_phase Finished r.

Definition awaits (s : SocketId) (r : Request) : bool :=
  match phase r with
  | AwaitSocket s' => bool_decide (s' = s)
  | _ => false
  end.

(** [resolve(socket)] / [reject(reason)] of the promise of socket [s]: a
    settled promise ignores the call; settling a pending one runs the
    continuation of the handler that awaits it. *)
Definition settle (s : SocketId) (p : PromiseState) (w : Server) : Server :=
  match socks w !! s with
  | Some st =>
      match promise st with
      | Pending =>
          let w1 := set_socks (alter (set_promise p) s) w in
          set_reqs (map (λ r, if awaits s r
                              then match p with
                                   | Fulfilled => resume w1 s r
                                   | _ => abort r
                                   end
                              else r)) w1
      | _ => w
      end
  | None => w
  end.

(** ** The event loop *)

(** What the client library delivers to the listeners of one socket. *)
Inductive SockEvent :=
| connect
| disconnect (reason : JSValue)
| push (p : Push)
| loginRequired
| login_ack (response : JSValue).  (* the callback of a [login] emission *)

Inductive Event :=
| Http (ep : Endpoint) (body : JSObject)  (* a POST arrives; [body] is [req.body] *)
| Sock (s : SocketId) (ev : SockEvent)
| TimerFires (r : nat)                    (* [timeoutTimer] of request [r] expires *)
| Ack (r : nat) (ack : JSValue).          (* the ack callback of request [r] runs *)

Definition validation_message (ep : Endpoint) : string :=
  match ep with
  | Emit => "`uri`, `credentials`, `event`, and `payload` are required"
  | _ => "`uri` and `credentials` are required"
  end.

(** The guards of lines 85, 121 and 142. *)
Definition invalid (ep : Endpoint) (body : JSObject) : bool :=
  match ep with
  | Emit =>
      negb (ToBoolean (obj_get body "uri"))
      || negb (ToBoolean (obj_get body "credentials"))
      || negb (ToBoolean (obj_get body "event"))
      || negb (ToBoolean (obj_get body "payload"))
  | _ =>
      negb (ToBoolean (obj_get body "uri"))
      || negb (ToBoolean (obj_get body "credentials"))
  end.

(** The destructuring of [req.body]; [/monitors] and [/groups] read only
    [uri] and [credentials]. *)
Definition new_request (ep : Endpoint) (body : JSObject) : Request :=
  {| endpoint := ep;
     req_uri := obj_get body "uri";
     req_event := match ep with Emit => obj_get body "event" | _ => JUndefined end;
     req_payload := match ep with Emit => obj_get body "payload" | _ => JUndefined end;
     req_timeout := match ep with
                    | Emit => match obj_get body "timeout" with
                              | JUndefined => JNum 5000
                              | t => t
                              end
                    | _ => JUndefined
                    end;
     timer_armed := false;
     phase := Finished;
     emitted := [];
     responses := [] |}.

(** A handler from its first line to its first suspension or return. *)
Definition http (ep : Endpoint) (body : JSObject) (w : Server) : Server :=
  let r := new_request ep body in
  if invalid ep body then
    set_reqs (λ l, l ++ [respond 400 (error_body (validation_message ep)) r]) w
  else
    let r1 := match ep with Emit => set_timer true r | _ => r end in
    let '(w1, (s, ready)) :=
      connectSocket (ToPropertyKey (req_uri r)) (obj_get body "credentials") w in
    let r2 := if ready : bool then resume w1 s r1 else set_phase (AwaitSocket s) r1 in
    set_reqs (λ l, l ++ [r2]) w1.

(** The listeners of lines 38-75 on socket [s]. *)
Definition sock (s : SocketId) (ev : SockEvent) (w : Server) : option Server :=
  st ← socks w !! s;
  match ev with
  | connect =>
      Some (set_socks (alter (set_connected true) s) w)
  | disconnect reason =>
      Some (settle s (Rejected reason) (set_socks (alter (set_connected false) s) w))
  | push p =>
      e ← sockets w !! sock_uri st;
      e' ← push_entry p e;
      Some (set_sockets <[sock_uri st := e']> w)
  | loginRequired =>
      Some (set_socks (alter (set_logins_pending (S (logins_pending st))) s) w)
  | login_ack response =>
      match logins_pending st with
      | 0 => None
      | S n =>
          ok ← get response "ok";
          let w1 := set_socks (alter (set_logins_pending n) s) w in
          Some (if ToBoolean ok
                then settle s Fulfilled w1
                else settle s (Rejected (JStr "Login failed")) w1)
      end
  end.

(** [{ error: "ACK timeout", event }] *)
Definition timeout_body (event : JSValue) : JSValue :=
  JObj [("error", JStr "ACK timeout"); ("event", event)].

(** The timer callback of lines 91-96; a timer that has fired or has been
    cleared does not fire.  The call on [res] is logged also when [res] is
    already answered, where Express refuses it. *)
Definition timer_fires (r : nat) (w : Server) : option Server :=
  req ← reqs w !! r;
  if timer_armed req then
    Some (set_reqs
            <[r := respond 504 (timeout_body (req_event req)) (set_timer false req)]> w)
  else None.

(** The ack callback of lines 104-112; the client library runs the
    callback of an emission at most once.  The call on [res] is logged also
    when [res] is already answered, where Express refuses it. *)
Definition ack_arrives (r : nat) (ack : JSValue) (w : Server) : option Server :=
  req ← reqs w !! r;
  match phase req with
  | AwaitAck _ =>
      let req1 := set_timer false req in
      ok ← get ack "ok";
      let req2 := if negb (ToBoolean ok)
                  then respond 400 ack req1
                  else respond 200 ack req1 in
      Some (set_reqs <[r := set_phase Finished req2]> w)
  | _ => None
  end.

(** One turn of the event loop.  [None]: the event cannot happen in this
    state, or its callback throws a [TypeError]. *)
Definition step (ev : Event) (w : Server) : option Server :=
  match ev with
  | Http ep body => Some (http ep body w)
  | Sock s e => sock s e w
  | TimerFires r => timer_fires r w
  | Ack r ack => ack_arrives r ack w
  end.

Fixpoint run (evs : list Event) (w : Server) : option Server :=
  match evs with
  | [] => Some w
  | ev :: evs' => w' ← step ev w; run evs' w'
  end.

Definition is_push (ev : Event) : bool :=
  match ev with
  | Sock _ (push _) => true
  | _ => false
  end.

(** ** Notions of the specification and sample runs *)

Definition sample_pushes : list Push :=
  [ monitorList [("1", JObj [("id", JNum 1); ("type", JStr "group"); ("name", JStr "G")]);
                 ("2", JObj [("id", JNum 2); ("type", JStr "http"); ("name", JStr "H")])];
    updateMonitorIntoList
      [("x", JObj [("id", JNum 1); ("type", JStr "group"); ("name", JStr "G2")])];
    updateMonitorIntoList
      [("y", JObj [("id", JNum 3); ("type", JStr "ping"); ("name", JStr "P")])];
    deleteMonitorFromList (JNum 2);
    deleteMonitorFromList (JNum 7) ].

(** An entity whose ID is the name of the one property that an array
    keeps for itself. *)
Definition length_entity : JSValue :=
  JObj [("id", JStr "length"); ("type", JStr "http"); ("name", JStr "L")].

(** The kind of an entity is its [type] property; an entity is of kind
    "group" when that property is the string [group]. *)
Definition kind_is_group (m : JSValue) : bool :=
  match m with
  | JObj props =>
      match obj_get props "type" with
      | JStr kind => String.eqb kind "group"
      | _ => false
      end
  | _ => false
  end.

(** A field of an entity; a value that is not an object has none. *)
Definition field (m : JSValue) (k : string) : JSValue :=
  match m with
  | JObj props => obj_get props k
  | _ => JUndefined
  end.

Definition only_id_and_name (m : JSValue) : JSValue :=
  JObj [("id", field m "id"); ("name", field m "name")].

(** An entity is an object or a primitive, not [undefined] or [null]. *)
Definition not_nullish (m : JSValue) : Prop := m ≠ JUndefined ∧ m ≠ JNull.

(** The destinations for which [io()] has been called, in order. *)
Definition uris (w : Server) : list string := sock_uri <$> socks w.

(** The sockets created so far and the entries of the registry name each
    other: socket [s] was created for the destination under which the
    registry holds it. *)
Definition registry_inv (w : Server) : Prop :=
  (∀ s uri, uris w !! s = Some uri →
     ∃ e, sockets w !! uri = Some e ∧ socket e = s)
  ∧ (∀ uri e, sockets w !! uri = Some e → uris w !! socket e = Some uri).

(** The three ways in which one turn of the event loop touches the
    registry: not at all, by creating the socket and the entry of a new
    destination, or by replacing the cache of an existing entry. *)
Inductive registry_change (w w' : Server) : Prop :=
| registry_same :
    sockets w' = sockets w → uris w' = uris w → registry_change w w'
| registry_created uri :
    sockets w !! uri = None →
    sockets w' = <[uri := {| socket := length (uris w); monitors := [];
                            is_array := true |}]> (sockets w) →
    uris w' = uris w ++ [uri] →
    registry_change w w'
| registry_cached uri e e' :
    sockets w !! uri = Some e →
    socket e' = socket e →
    sockets w' = <[uri := e']> (sockets w) →
    uris w' = uris w →
    registry_change w w'.

Definition sample_credentials : JSValue :=
  JObj [("username", JStr "a"); ("password", JStr "b")].

Definition sample_body : JSObject :=
  [("uri", JStr "ws://h:1"); ("credentials", sample_credentials);
   ("event", JStr "ping"); ("payload", JObj []); ("timeout", JNum 100)].

Definition ok_true : JSValue := JObj [("ok", JBool true)].
Definition ok_false : JSValue := JObj [("ok", JBool false); ("msg", JStr "denied")].

(** A first request creates the socket, the server asks for a login and
    accepts it, and a second request arrives for the same destination. *)
Definition sample_run : list Event :=
  [Http Emit sample_body; Sock 0 connect; Sock 0 loginRequired;
   Sock 0 (login_ack ok_true); Http Monitors sample_body].

Definition sample_state : Server := default init (run sample_run init).

(** The server asks for a login and rejects it. *)
Definition login_rejected_run : list Event :=
  [Sock 0 connect; Sock 0 loginRequired; Sock 0 (login_ack ok_false)].

Definition login_rejected_state : Server :=
  default init
    (run login_rejected_run (connectSocket "ws://h:1" sample_credentials init).1).

Definition establishment_failed (w : Server) (s : SocketId) : Prop :=
  ∃ st reason, socks w !! s = Some st ∧ promise st = Rejected reason.

(** The fields that the error messages of lines 87, 123 and 144 name. *)
Definition required (ep : Endpoint) : list string :=
  match ep with
  | Emit => ["uri"; "credentials"; "event"; "payload"]
  | _ => ["uri"; "credentials"]
  end.

(** A first request has created the socket, which is still connecting. *)
Definition connecting_state : Server := http Monitors sample_body init.

(** The first request has been emitted and waits for its ack. *)
Definition emitted_state : Server :=
  default init
    (run [Http Emit sample_body; Sock 0 connect; Sock 0 loginRequired;
          Sock 0 (login_ack ok_true)] init).

Definition emitted_request : Request :=
  default (new_request Emit sample_body) (reqs emitted_state !! 0).

(** The socket of a new destination connects and logs in. *)
Definition ready_run : list Event :=
  [Sock 0 connect; Sock 0 loginRequired; Sock 0 (login_ack ok_true)].

Definition ready_state : Server :=
  default init (run ready_run (connectSocket "ws://h:1" sample_credentials init).1).

Definition late_ack_run : list Event :=
  [Http Emit sample_body; Sock 0 connect; Sock 0 loginRequired;
   Sock 0 (login_ack ok_true); TimerFires 0; Ack 0 ok_true].

(** ** Transitions of a request *)

(** Only [/emit] sets a timer (line 91). *)
Definition arm (ep : Endpoint) (r : Request) : Request :=
  match ep with
  | Emit => set_timer true r
  | _ => r
  end.

(** The request that the guards of lines 85, 121 and 142 turn away. *)
Definition rejected (ep : Endpoint) (body : JSObject) : Request :=
  respond 400 (error_body (validation_message ep)) (new_request ep body).

(** What one turn of the event loop can do to a request: nothing, run the
    code after the [await], throw out of the [await], run the timer
    callback, or run the ack callback. *)
Inductive req_step : Request → Request → Prop :=
| req_same r : req_step r r
| req_resume w s r : phase r = AwaitSocket s → req_step r (resume w s r)
| req_abort s r : phase r = AwaitSocket s → req_step r (abort r)
| req_timer r :
    timer_armed r = true →
    req_step r (respond 504 (timeout_body (req_event r)) (set_timer false r))
| req_ack s code ack r :
    phase r = AwaitAck s →
    req_step r (set_phase Finished (respond code ack (set_timer false r))).

(** A request at the end of the turn in which it arrived. *)
Definition fresh_request (ep : Endpoint) (body : JSObject) (r : Request) : Prop :=
  (invalid ep body = true ∧ r = rejected ep body)
  ∨ (invalid ep body = false
     ∧ ∃ s, req_step (set_phase (AwaitSocket s) (arm ep (new_request ep body))) r).

(** The callbacks that can still write a response for a request: its timer
    and the rest of its handler. *)
Definition budget (r : Request) : nat :=
  (if timer_armed r then 1 else 0)
  + match phase r with
    | Finished => 0
    | _ => 1
    end.

Definition response_limit (ep : Endpoint) : nat :=
  match ep with
  | Emit => 2
  | _ => 1
  end.

Definition within_budget (r : Request) : Prop :=
  length (responses r) + budget r ≤ response_limit (endpoint r).

(** Every emission of a request carries its own event and payload, and
    the payload is truthy. *)
Definition emits_own_payload (r : Request) : Prop :=
  (∀ x, x ∈ emitted r →
     ∃ s, x = (s, req_event r, req_payload r) ∧ ToBoolean (req_payload r) = true)
  ∧ (∀ s, phase r = AwaitSocket s → endpoint r = Emit →
       ToBoolean (req_payload r) = true).

(** [undefined] or [null] *)
Definition is_nullish (v : JSValue) : bool :=
  match v with
  | JUndefined | JNull => true
  | _ => false
  end.

(** ** Further sample runs *)

(** The second request of [sample_run], answered with the list. *)
Definition listed_request : Request :=
  default (new_request Monitors sample_body) (reqs sample_state !! 1).

(** The socket drops, the timer of the first request fires, the socket
    comes back. *)
Definition drop_run : list Event :=
  [Sock 0 (disconnect (JStr "transport close")); TimerFires 0; Sock 0 connect].

Definition dropped_state : Server := default init (run drop_run sample_state).

(** The first request is answered by its ack before the deadline. *)
Definition acked_state : Server :=
  default init (ack_arrives 0 ok_true emitted_state).

Definition after_ack_run : list Event :=
  [Sock 0 (disconnect (JStr "transport close")); Sock 0 connect;
   Http Groups sample_body].

Definition after_ack_state : Server := default init (run after_ack_run acked_state).

Definition late_ack_state : Server := default init (run late_ack_run init).

Definition late_ack_request : Request :=
  default (new_request Emit sample_body) (reqs late_ack_state !! 0).

(** A [/groups] request creates the socket of a new destination and waits. *)
Definition waiting_state : Server := http Groups sample_body init.

Definition waiting_request : Request :=
  default (new_request Groups sample_body) (reqs waiting_state !! 0).

(** An [/emit] request waits for a socket that is connected and has been
    asked to log in. *)
Definition slow_login_state : Server :=
  default init
    (run [Http Emit sample_body; Sock 0 connect; Sock 0 loginRequired] init).

Definition slow_login_request : Request :=
  default (new_request Emit sample_body) (reqs slow_login_state !! 0).

Definition slow_login_socket : SocketState :=
  {| sock_uri := "ws://h:1"; sock_credentials := sample_credentials;
     connected := true; promise := Pending; logins_pending := 1 |}.

(** The [connect] event of socket [s] (line 38). *)
Definition connects (s : SocketId) (ev : Event) : bool :=
  match ev with
  | Sock s' connect => bool_decide (s' = s)
  | _ => false
  end.

(** The events that settle the promise of socket [s] if it is pending: a
    disconnect (line 44) and the callback of a [login] emission (lines
    66-74). *)
Definition settles (s : SocketId) (ev : Event) : bool :=
  match ev with
  | Sock s' (disconnect _) | Sock s' (login_ack _) => bool_decide (s' = s)
  | _ => false
  end.

(** The server does not answer a login: the socket connects, a login is
    demanded, the full list arrives, another request comes in. *)
Definition no_login_run : list Event :=
  [Sock 0 connect; Sock 0 loginRequired;
   Sock 0 (push (monitorList [("1", JObj [("id", JNum 1); ("type", JStr "group")])]));
   Http Monitors sample_body].

Definition no_login_state : Server := default init (run no_login_run waiting_state).

(** What the transport reports about a socket apart from pushes. *)
Definition is_lifecycle (ev : SockEvent) : bool :=
  match ev with
  | push _ => false
  | _ => true
  end.

(** The state of [sample_state] after the full list has arrived. *)
Definition listed_state : Server :=
  default init
    (step (Sock 0 (push (monitorList
                           [("1", JObj [("id", JNum 1); ("type", JStr "group");
                                        ("name", JStr "G")])]))) sample_state).

Definition listed_socket : SocketState :=
  {| sock_uri := "ws://h:1"; sock_credentials := sample_credentials;
     connected := true; promise := Fulfilled; logins_pending := 0 |}.

(** An entry whose cache holds entity 3, and the same after the upsert of
    entity 7. *)
Definition one_entity_entry : Entry :=
  {| socket := 0; monitors := [("3", JObj [("id", JNum 3)])]; is_array := false |}.

Definition upserted_entry : Entry :=
  {| socket := 0;
     monitors := [("3", JObj [("id", JNum 3)]);
                  ("7", JObj [("id", JNum 7); ("name", JStr "N")])];
     is_array := false |}.

(** Before the socket of a new destination has connected: a request for
    another destination arrives and a push is handled. *)
Definition slow_start_run : list Event :=
  [Http Groups [("uri", JStr "ws://other:2"); ("credentials", sample_credentials)];
   Sock 0 (push (monitorList []))].

Definition slow_start_state : Server :=
  default init
    (run slow_start_run (connectSocket "ws://h:1" sample_credentials init).1).

(** Two destinations, each with its socket. *)
Definition two_destinations : Server :=
  http Monitors [("uri", JStr "ws://other:2"); ("credentials", sample_credentials)]
    sample_state.

(** * Properties *)

(** ** Objects as finite maps *)

Section objects.
Implicit Types (o : JSObject) (k : string) (v : JSValue).

Lemma obj_get_lookup o k :
  obj_get o k = default JUndefined ((list_to_map o : gmap string JSValue) !! k).
Proof.
  induction o as [|[k' v'] o IH]; simpl; [done|].
  case_decide as Hk.
  - subst. by rewrite lookup_insert_eq.
  - by rewrite lookup_insert_ne.
Qed.

Lemma obj_set_to_map o k v :
  (list_to_map (obj_set o k v) : gmap string JSValue) = <[k := v]> (list_to_map o).
Proof.
  induction o as [|[k' v'] o IH]; simpl; [done|].
  case_decide as Hk; simpl.
  - subst. by rewrite insert_insert_eq.
  - rewrite IH. by apply insert_insert_ne.
Qed.

Lemma obj_delete_to_map o k :
  (list_to_map (obj_delete o k) : gmap string JSValue) = delete k (list_to_map o).
Proof.
  unfold obj_delete.
  induction o as [|[k' v'] o IH]; simpl.
  - by rewrite delete_empty.
  - rewrite filter_cons. simpl. case_decide as Hk; simpl.
    + rewrite IH. by rewrite delete_insert_ne.
    + simpl in Hk. subst. by rewrite IH, delete_insert_eq.
Qed.

Lemma obj_set_keys o k v k' :
  k' ∈ (obj_set o k v).*1 ↔ k' = k ∨ k' ∈ o.*1.
Proof.
  induction o as [|[k0 v0] o IH]; simpl.
  - rewrite list_elem_of_singleton, elem_of_nil. tauto.
  - case_decide as Hk; simpl; rewrite !elem_of_cons.
    + subst. tauto.
    + rewrite IH. tauto.
Qed.

Lemma obj_set_NoDup o k v : NoDup o.*1 → NoDup (obj_set o k v).*1.
Proof.
  induction o as [|[k0 v0] o IH]; simpl; intros Hnd.
  - apply NoDup_singleton.
  - apply NoDup_cons in Hnd as [Hnotin Hnd].
    case_decide as Hk; simpl.
    + subst. by apply NoDup_cons.
    + apply NoDup_cons. split; [|by apply IH].
      rewrite obj_set_keys. intros [->|?]; done.
Qed.

Lemma obj_delete_NoDup o k : NoDup o.*1 → NoDup (obj_delete o k).*1.
Proof.
  intros Hnd. eapply sublist_NoDup; [done|].
  unfold obj_delete. by apply fmap_sublist, sublist_filter.
Qed.

Lemma obj_delete_absent o k : k ∉ o.*1 → obj_delete o k = o.
Proof.
  unfold obj_delete. induction o as [|[k0 v0] o IH]; simpl; intros Hk; [done|].
  rewrite filter_cons. simpl.
  apply not_elem_of_cons in Hk as [Hne Hk].
  case_decide as Hd; [f_equal; by apply IH | by subst].
Qed.

End objects.

(** ** The cache against the reference mapping *)

Lemma key_ToPropertyKey (id : JSValue) (k : string) :
  Reference.key id = Some k → ToPropertyKey id = k.
Proof.
  destruct id; simpl; try done.
  - case_bool_decide; [|done]. by intros [= <-].
  - by intros [= <-].
Qed.

Lemma apply_push_refines (p : Push) (cache : JSObject) :
  wf_push p → NoDup cache.*1 →
  ∃ cache', apply_push p cache = Some cache'
    ∧ Reference.replay_one p (list_to_map cache) = Some (list_to_map cache')
    ∧ NoDup cache'.*1.
Proof.
  intros Hwf Hnd. destruct p as [data|data|monitorId]; simpl in *.
  - by exists data.
  - destruct Hwf as (k & props & id & -> & Hid & Hlen & Hproto).
    unfold on_updateMonitorIntoList. simpl.
    rewrite (key_ToPropertyKey _ _ Hid), Hid. simpl.
    rewrite bool_decide_eq_false_2 by done. simpl.
    eexists. split; [done|]. split.
    + by rewrite obj_set_to_map.
    + by apply obj_set_NoDup.
  - destruct Hwf as (id & Hid & Hlen). rewrite Hid. simpl.
    eexists. split; [done|]. split.
    + unfold on_deleteMonitorFromList.
      by rewrite (key_ToPropertyKey _ _ Hid), obj_delete_to_map.
    + by apply obj_delete_NoDup.
Qed.

Lemma wf_push_not_on_length (p : Push) : wf_push p → on_length p = false.
Proof.
  destruct p as [data|data|monitorId]; simpl; [done| |].
  - intros (k & props & id & -> & Hid & Hlen & _). simpl.
    rewrite (key_ToPropertyKey _ _ Hid). by apply bool_decide_eq_false_2.
  - intros (id & Hid & Hlen).
    rewrite (key_ToPropertyKey _ _ Hid). by apply bool_decide_eq_false_2.
Qed.

Lemma push_entry_refines (p : Push) (e : Entry) :
  wf_push p → NoDup (monitors e).*1 →
  ∃ e', push_entry p e = Some e'
    ∧ Reference.replay_one p (list_to_map (monitors e))
      = Some (list_to_map (monitors e'))
    ∧ NoDup (monitors e').*1.
Proof.
  intros Hwf Hnd. unfold push_entry.
  rewrite (wf_push_not_on_length _ Hwf), andb_false_r.
  destruct (apply_push_refines p (monitors e) Hwf Hnd) as (m & -> & Href & Hnd').
  simpl. by eexists.
Qed.

Lemma push_entries_refine (ps : list Push) (e : Entry) :
  Forall wf_push ps → NoDup (monitors e).*1 →
  ∃ e', push_entries ps e = Some e'
    ∧ Reference.replay ps (list_to_map (monitors e))
      = Some (list_to_map (monitors e'))
    ∧ NoDup (monitors e').*1.
Proof.
  intros Hwf. revert e.
  induction Hwf as [|p ps Hp _ IH]; intros e Hnd; simpl.
  - by exists e.
  - destruct (push_entry_refines p e Hp Hnd) as (e1 & -> & -> & Hnd1).
    simpl. by apply IH.
Qed.

(** C4, at an upsert that is the first push of a connection: the cache
    is still the array of line 36, the ID of the entity is [length], and
    line 55 throws instead of writing the entity at its ID, while the
    reference mapping holds the entity under [length]; after a full list
    has replaced the array the same upsert is written. *)
Theorem upsert_of_id_length_throws_on_new_cache :
  push_entry (updateMonitorIntoList [("x", length_entity)])
    {| socket := 0; monitors := []; is_array := true |} = None
  ∧ step (Sock 0 (push (updateMonitorIntoList [("x", length_entity)]))) ready_state
    = None
  ∧ Reference.replay [updateMonitorIntoList [("x", length_entity)]] ∅
    = Some {["length" := length_entity]}
  ∧ push_entries [monitorList []; updateMonitorIntoList [("x", length_entity)]]
      {| socket := 0; monitors := []; is_array := true |}
    = Some {| socket := 0; monitors := [("length", length_entity)];
              is_array := false |}.
Proof. repeat split; by vm_compute. Qed.

Lemma sample_pushes_wf : Forall wf_push sample_pushes.
Proof.
  unfold sample_pushes. repeat apply Forall_cons_2; try apply Forall_nil_2; simpl.
  - apply (bool_decide_unpack _). by vm_compute.
  - by eexists _, _, _.
  - by eexists _, _, _.
  - by eexists.
  - by eexists.
Defined.

(** X18: for every sequence of pushes of the shapes the transport
    interface describes, whose IDs are strings or integers that JSON
    carries exactly and are neither [length] nor [__proto__], the
    listeners applied in arrival order to the entry of a new connection
    all return, the replay of the sequence on the reference mapping from
    entity ID to entity succeeds, and the cache holds exactly the bindings
    of the reference mapping. *)
Theorem cache_refines_reference (ps : list Push) (s : SocketId) :
  Forall wf_push ps →
  ∃ (e : Entry) (ref : gmap string JSValue),
    push_entries ps {| socket := s; monitors := []; is_array := true |} = Some e
    ∧ Reference.replay ps ∅ = Some ref
    ∧ map_to_list ref ≡ₚ monitors e
    ∧ ∀ id, obj_get (monitors e) id = default JUndefined (ref !! id).
Proof.
  intros Hwf.
  destruct (push_entries_refine ps {| socket := s; monitors := []; is_array := true |}
              Hwf) as (e & Hrun & Href & Hnd).
  { simpl. apply NoDup_nil_2. }
  exists e, (list_to_map (monitors e)). repeat split; try done.
  - by apply map_to_list_to_map.
  - intros id. apply obj_get_lookup.
Qed.

Lemma cache_refines_reference_witness :
  ∃ (e : Entry) (ref : gmap string JSValue),
    push_entries sample_pushes {| socket := 0; monitors := []; is_array := true |}
    = Some e
    ∧ Reference.replay sample_pushes ∅ = Some ref
    ∧ map_to_list ref ≡ₚ monitors e
    ∧ ∀ id, obj_get (monitors e) id = default JUndefined (ref !! id).
Proof. apply (cache_refines_reference sample_pushes 0), sample_pushes_wf. Defined.

(** What [sample_pushes] leaves: entity 1 as upserted, entity 3, and no
    entity 2. *)
Example sample_pushes_result :
  push_entries sample_pushes {| socket := 0; monitors := []; is_array := true |}
  = Some {| socket := 0;
            monitors :=
              [("1", JObj [("id", JNum 1); ("type", JStr "group"); ("name", JStr "G2")]);
               ("3", JObj [("id", JNum 3); ("type", JStr "ping"); ("name", JStr "P")])];
            is_array := false |}
  ∧ (m ← Reference.replay sample_pushes ∅; Some (m !! "1", m !! "2", m !! "3"))
    = Some (Some (JObj [("id", JNum 1); ("type", JStr "group"); ("name", JStr "G2")]),
            None,
            Some (JObj [("id", JNum 3); ("type", JStr "ping"); ("name", JStr "P")])).
Proof. split; by vm_compute. Qed.

(** The scenario of the specification: a full list, an upsert of entity 1
    and its deletion leave the cache empty. *)
Example scenario_upsert_then_delete :
  push_entries
    [ monitorList [("1", JObj [("id", JNum 1); ("type", JStr "group"); ("name", JStr "G")])];
      updateMonitorIntoList
        [("x", JObj [("id", JNum 1); ("type", JStr "group"); ("name", JStr "G2")])] ]
    {| socket := 0; monitors := []; is_array := true |}
  = Some {| socket := 0;
            monitors := [("1", JObj [("id", JNum 1); ("type", JStr "group");
                                     ("name", JStr "G2")])];
            is_array := false |}
  ∧ push_entry (deleteMonitorFromList (JNum 1))
      {| socket := 0;
         monitors := [("1", JObj [("id", JNum 1); ("type", JStr "group");
                                  ("name", JStr "G2")])];
         is_array := false |}
    = Some {| socket := 0; monitors := []; is_array := false |}.
Proof. split; by vm_compute. Qed.

(** In the event loop the push listeners of a socket act on the entry of
    its destination exactly as [push_entries] does. *)
Lemma sock_pushes_apply (ps : list Push) (w : Server) (s : SocketId)
    (st : SocketState) (e e' : Entry) :
  socks w !! s = Some st →
  sockets w !! sock_uri st = Some e →
  push_entries ps e = Some e' →
  ∃ w', run ((λ p, Sock s (push p)) <$> ps) w = Some w'
        ∧ socks w' = socks w
        ∧ sockets w' !! sock_uri st = Some e'.
Proof.
  revert w e. induction ps as [|p ps IH]; intros w e Hs He Hrun; simpl in *.
  - injection Hrun as <-. by exists w.
  - destruct (push_entry p e) as [e1|] eqn:Hp; simpl in Hrun; [|done].
    unfold sock. rewrite Hs. simpl. rewrite He. simpl. rewrite Hp. simpl.
    destruct (IH (set_sockets <[sock_uri st := e1]> w) e1)
      as (w' & Hrun' & Hsocks & Hentry); try done.
    { simpl. by rewrite lookup_insert_eq. }
    exists w'. by repeat split.
Qed.

(** ** The group listing *)

Lemma get_not_nullish (m : JSValue) (k : string) :
  not_nullish m → get m k = Some (field m k).
Proof. intros [? ?]. by destruct m. Qed.

(** On an entry that is not [undefined] or [null] the filter callback
    returns, and it tells the entities of kind "group" from the others. *)
Lemma is_group_kind (m : JSValue) :
  not_nullish m → is_group m = Some (kind_is_group m).
Proof.
  intros [Hu Hn]. unfold is_group.
  destruct m as [| |b|n|s|items|props]; try done. simpl. f_equal.
  destruct (obj_get props "type") as [| |b|n|kind|items|props']; simpl; try done.
  case_bool_decide as Hk.
  - subst. by rewrite String.eqb_refl.
  - symmetry. by apply String.eqb_neq.
Qed.

Lemma js_filter_total (l : list JSValue) :
  Forall not_nullish l →
  js_filter is_group l = Some (filter (λ m, kind_is_group m = true) l).
Proof.
  induction 1 as [|m l Hm _ IH]; [done|].
  rewrite filter_cons. cbn [js_filter]. rewrite IH, (is_group_kind m Hm). simpl.
  destruct (kind_is_group m); by case_decide.
Qed.

Lemma js_map_total (l : list JSValue) :
  Forall not_nullish l → js_map id_and_name l = Some (only_id_and_name <$> l).
Proof.
  induction 1 as [|m l Hm _ IH]; [done|].
  cbn [js_map]. rewrite IH. unfold id_and_name.
  by rewrite (get_not_nullish m "id" Hm), (get_not_nullish m "name" Hm).
Qed.

(** C8, as the code has it: for every cache none of whose entries is
    [undefined] or [null], the body of [/groups] is the list that
    [/monitors] returns, restricted to the entities of kind "group" and
    each reduced to its [id] and [name]; the properties of every returned
    item are exactly [id] and [name]. *)
Theorem groups_are_filtered_monitors (cache : JSObject) :
  Forall not_nullish (Object_values cache) →
  ∃ entities items,
    monitors_body cache = JArr entities
    ∧ groups_body cache = Some (JArr items)
    ∧ items = only_id_and_name <$> filter (λ m, kind_is_group m = true) entities
    ∧ Forall (λ item, ∃ props, item = JObj props ∧ props.*1 = ["id"; "name"]) items.
Proof.
  intros Hent. exists (Object_values cache). eexists. split; [done|].
  unfold groups_body. rewrite (js_filter_total _ Hent). simpl.
  rewrite js_map_total.
  - simpl. split; [done|]. split; [done|].
    apply Forall_fmap, Forall_forall. intros m _. by eexists.
  - eapply Forall_impl; [|done]. clear -Hent.
    induction Hent as [|m l Hm _ IH]; [constructor|].
    rewrite filter_cons. case_decide; [by constructor|done].
Qed.

Lemma groups_are_filtered_monitors_witness :
  ∃ entities items,
    monitors_body
      [("1", JObj [("id", JNum 1); ("type", JStr "group"); ("name", JStr "G")]);
       ("2", JObj [("id", JNum 2); ("type", JStr "http"); ("url", JStr "u")])]
    = JArr entities
    ∧ groups_body
        [("1", JObj [("id", JNum 1); ("type", JStr "group"); ("name", JStr "G")]);
         ("2", JObj [("id", JNum 2); ("type", JStr "http"); ("url", JStr "u")])]
      = Some (JArr items)
    ∧ items = only_id_and_name <$> filter (λ m, kind_is_group m = true) entities
    ∧ Forall (λ item, ∃ props, item = JObj props ∧ props.*1 = ["id"; "name"]) items.
Proof.
  apply groups_are_filtered_monitors. simpl.
  repeat constructor; discriminate.
Defined.

(** C8, as stated, fails: a full list may bring a [null] entry; on the
    cache it leaves, [/monitors] answers with the list while the filter
    callback of [/groups] throws at [m.type] and nothing is returned. *)
Lemma groups_throw_where_monitors_answer :
  push_entry (monitorList [("1", JNull)])
    {| socket := 0; monitors := []; is_array := true |}
  = Some {| socket := 0; monitors := [("1", JNull)]; is_array := false |}
  ∧ monitors_body [("1", JNull)] = JArr [JNull]
  ∧ groups_body [("1", JNull)] = None.
Proof. repeat split; by vm_compute. Qed.

(** The groups of a cache with one group and one other entity. *)
Example groups_of_two_entities :
  groups_body
    [("1", JObj [("id", JNum 1); ("type", JStr "group"); ("name", JStr "G")]);
     ("2", JObj [("id", JNum 2); ("type", JStr "http"); ("url", JStr "u")])]
  = Some (JArr [JObj [("id", JNum 1); ("name", JStr "G")]]).
Proof. by vm_compute. Qed.

(** ** The registry under the event loop *)

Lemma push_entry_socket (p : Push) (e e' : Entry) :
  push_entry p e = Some e' → socket e' = socket e.
Proof.
  unfold push_entry. destruct (is_array e && on_length p); [done|].
  destruct (apply_push p (monitors e)); simpl; [|done]. by intros [= <-].
Qed.


Section registry.
Implicit Types (w : Server) (s : SocketId) (uri : string) (e : Entry).

Lemma uris_alter (f : SocketState → SocketState) s (l : list SocketState) :
  (∀ st, sock_uri (f st) = sock_uri st) →
  sock_uri <$> alter f s l = sock_uri <$> l.
Proof.
  intros Hf. revert s.
  induction l as [|st l IH]; intros [|s]; csimpl; f_equal; auto.
Qed.

Lemma settle_sockets s p w : sockets (settle s p w) = sockets w.
Proof.
  unfold settle. destruct (socks w !! s) as [st|]; [|done].
  by destruct (promise st).
Qed.

Lemma settle_uris s p w : uris (settle s p w) = uris w.
Proof.
  unfold settle, uris. destruct (socks w !! s) as [st|]; [|done].
  destruct (promise st); try done. simpl. by apply uris_alter.
Qed.

Lemma connectSocket_reuse uri credentials w e :
  sockets w !! uri = Some e →
  connectSocket uri credentials w = (w, (socket e, true)).
Proof. intros He. unfold connectSocket. by rewrite He. Qed.

Lemma connectSocket_create uri credentials w :
  sockets w !! uri = None →
  ∃ w1,
    connectSocket uri credentials w = (w1, (length (socks w), false))
    ∧ sockets w1 = <[uri := {| socket := length (socks w); monitors := []; is_array := true |}]> (sockets w)
    ∧ uris w1 = uris w ++ [uri]
    ∧ reqs w1 = reqs w.
Proof.
  intros He. unfold connectSocket. rewrite He. eexists. split; [done|].
  unfold uris. simpl. by rewrite fmap_app.
Qed.

(** What a handler leaves in the registry is what its call of
    [connectSocket] leaves there. *)
Lemma http_registry ep body w :
  invalid ep body = false →
  let w1 := (connectSocket (ToPropertyKey (obj_get body "uri"))
               (obj_get body "credentials") w).1 in
  sockets (http ep body w) = sockets w1 ∧ socks (http ep body w) = socks w1.
Proof.
  intros Hv. unfold http. rewrite Hv.
  replace (req_uri (new_request ep body)) with (obj_get body "uri") by done.
  by destruct (connectSocket _ _ w) as [w1 [s ready]].
Qed.

Lemma http_invalid ep body w :
  invalid ep body = true →
  http ep body w =
    set_reqs (λ l, l ++ [respond 400 (error_body (validation_message ep))
                           (new_request ep body)]) w.
Proof. intros Hv. unfold http. by rewrite Hv. Qed.

(** An entry is never removed and never changes its socket; only a push
    changes its cache. *)
Lemma step_entry ev w w' uri e :
  step ev w = Some w' → sockets w !! uri = Some e →
  ∃ e', sockets w' !! uri = Some e' ∧ socket e' = socket e
        ∧ (is_push ev = false → e' = e).
Proof.
  intros Hstep He. destruct ev as [ep body|s sev|r|r ack]; simpl in Hstep.
  - injection Hstep as <-. exists e. split; [|done].
    destruct (invalid ep body) eqn:Hv.
    + by rewrite http_invalid.
    + destruct (http_registry ep body w Hv) as [-> _].
      destruct (sockets w !! ToPropertyKey (obj_get body "uri")) as [e0|] eqn:H0.
      * by rewrite (connectSocket_reuse _ _ _ _ H0).
      * destruct (connectSocket_create _ (obj_get body "credentials") _ H0)
          as (w1 & Hc & Hs & _).
        rewrite Hc. simpl. rewrite Hs.
        rewrite lookup_insert_ne; [done|]. intros <-. congruence.
  - unfold sock in Hstep.
    destruct (socks w !! s) as [st|]; simpl in Hstep; [|done].
    destruct sev as [|reason|p| |response].
    + injection Hstep as <-. by exists e.
    + injection Hstep as <-. exists e. by rewrite settle_sockets.
    + destruct (sockets w !! sock_uri st) as [e0|] eqn:H0; simpl in Hstep; [|done].
      destruct (push_entry p e0) as [e1|] eqn:Hpush; simpl in Hstep; [|done].
      injection Hstep as <-. simpl.
      destruct (decide (sock_uri st = uri)) as [<-|Hne].
      * rewrite lookup_insert_eq. eexists. split; [done|].
        split; [|done]. rewrite (push_entry_socket _ _ _ Hpush). congruence.
      * rewrite lookup_insert_ne by done. by exists e.
    + injection Hstep as <-. by exists e.
    + destruct (logins_pending st); [done|].
      destruct (get response "ok") as [ok|]; simpl in Hstep; [|done].
      injection Hstep as <-. exists e.
      destruct (ToBoolean ok); by rewrite settle_sockets.
  - unfold timer_fires in Hstep.
    destruct (reqs w !! r) as [req|]; simpl in Hstep; [|done].
    destruct (timer_armed req); [|done]. injection Hstep as <-. by exists e.
  - unfold ack_arrives in Hstep.
    destruct (reqs w !! r) as [req|]; simpl in Hstep; [|done].
    destruct (phase req); try done.
    destruct (get ack "ok"); simpl in Hstep; [|done].
    injection Hstep as <-. by exists e.
Qed.

Lemma run_entry evs w w' uri e :
  run evs w = Some w' → sockets w !! uri = Some e →
  ∃ e', sockets w' !! uri = Some e' ∧ socket e' = socket e
        ∧ (forallb (λ ev, negb (is_push ev)) evs = true → e' = e).
Proof.
  revert w e. induction evs as [|ev evs IH]; intros w e Hrun He; simpl in *.
  - injection Hrun as <-. by exists e.
  - destruct (step ev w) as [w1|] eqn:Hstep; simpl in Hrun; [|done].
    destruct (step_entry _ _ _ _ _ Hstep He) as (e1 & He1 & Hs1 & Hp1).
    destruct (IH _ _ Hrun He1) as (e2 & He2 & Hs2 & Hp2).
    exists e2. split; [done|]. split; [congruence|].
    intros [Hev Hevs]%andb_prop. apply negb_true_iff in Hev.
    rewrite Hp2, Hp1; done.
Qed.

End registry.

(** ** One socket per destination *)

Section one_socket.
Implicit Types (w : Server) (s : SocketId) (uri : string) (e : Entry).

Lemma step_registry_change ev w w' : step ev w = Some w' → registry_change w w'.
Proof.
  intros Hstep. destruct ev as [ep body|s sev|r|r ack]; simpl in Hstep.
  - injection Hstep as <-. destruct (invalid ep body) eqn:Hv.
    + rewrite http_invalid by done. by apply registry_same.
    + destruct (http_registry ep body w Hv) as [Hs Hk].
      destruct (sockets w !! ToPropertyKey (obj_get body "uri")) as [e0|] eqn:H0.
      * rewrite (connectSocket_reuse _ _ _ _ H0) in Hs, Hk.
        apply registry_same; [done|]. unfold uris. by rewrite Hk.
      * destruct (connectSocket_create _ (obj_get body "credentials") _ H0)
          as (w1 & Hc & Hs1 & Hu1 & _).
        rewrite Hc in Hs, Hk. simpl in Hs, Hk.
        eapply registry_created; [done| |].
        -- rewrite Hs, Hs1. unfold uris. by rewrite length_fmap.
        -- unfold uris at 1. by rewrite Hk.
  - unfold sock in Hstep.
    destruct (socks w !! s) as [st|]; simpl in Hstep; [|done].
    destruct sev as [|reason|p| |response].
    + injection Hstep as <-. apply registry_same; [done|]. by apply uris_alter.
    + injection Hstep as <-.
      apply registry_same; [by rewrite settle_sockets|].
      rewrite settle_uris. by apply uris_alter.
    + destruct (sockets w !! sock_uri st) as [e0|] eqn:H0; simpl in Hstep; [|done].
      destruct (push_entry p e0) as [e1|] eqn:Hpush; simpl in Hstep; [|done].
      injection Hstep as <-.
      eapply registry_cached; [done| |done|done].
      by eapply push_entry_socket.
    + injection Hstep as <-. apply registry_same; [done|]. by apply uris_alter.
    + destruct (logins_pending st); [done|].
      destruct (get response "ok") as [ok|]; simpl in Hstep; [|done].
      injection Hstep as <-.
      destruct (ToBoolean ok);
        (apply registry_same;
         [by rewrite settle_sockets | rewrite settle_uris; by apply uris_alter]).
  - unfold timer_fires in Hstep.
    destruct (reqs w !! r) as [req|]; simpl in Hstep; [|done].
    destruct (timer_armed req); [|done]. injection Hstep as <-.
    by apply registry_same.
  - unfold ack_arrives in Hstep.
    destruct (reqs w !! r) as [req|]; simpl in Hstep; [|done].
    destruct (phase req); try done.
    destruct (get ack "ok"); simpl in Hstep; [|done].
    injection Hstep as <-. by apply registry_same.
Qed.

Lemma registry_inv_init : registry_inv init.
Proof. split; [intros s uri Hs | intros uri e He]; done. Qed.

Lemma registry_change_inv w w' :
  registry_change w w' → registry_inv w → registry_inv w'.
Proof.
  intros Hch [Hreg Hlive].
  destruct Hch as [Hs Hu|uri Hnone Hs Hu|uri e e1 He Hsock Hs Hu];
    unfold registry_inv; rewrite Hs, Hu.
  - done.
  - split.
    + intros s uri' [[Hlt Hold]|[-> <-]]%lookup_snoc_Some.
      * destruct (Hreg _ _ Hold) as (e & He & Hse).
        exists e. rewrite lookup_insert_ne; [done|]. congruence.
      * eexists. by rewrite lookup_insert_eq.
    + intros uri' e. rewrite lookup_insert.
      case_decide as Hk.
      * intros [= <-]. subst. simpl. by apply list_lookup_middle.
      * intros He. apply lookup_app_l_Some. by apply Hlive.
  - split.
    + intros s uri' Hold. destruct (Hreg _ _ Hold) as (e' & He' & Hse).
      destruct (decide (uri = uri')) as [<-|Hne].
      * rewrite lookup_insert_eq. eexists. split; [done|]. congruence.
      * rewrite lookup_insert_ne by done. by exists e'.
    + intros uri' e'. rewrite lookup_insert. case_decide as Hk.
      * intros [= <-]. subst. rewrite Hsock. by apply Hlive.
      * apply Hlive.
Qed.

Lemma run_registry_inv evs w w' :
  run evs w = Some w' → registry_inv w → registry_inv w'.
Proof.
  revert w. induction evs as [|ev evs IH]; intros w Hrun Hinv; simpl in Hrun.
  - by injection Hrun as <-.
  - destruct (step ev w) as [w1|] eqn:Hstep; simpl in Hrun; [|done].
    eapply IH; [done|].
    eapply registry_change_inv; [|done]. by eapply step_registry_change.
Qed.

Lemma registry_inv_NoDup w : registry_inv w → NoDup (uris w).
Proof.
  intros [Hreg _]. apply NoDup_alt. intros s1 s2 uri H1 H2.
  destruct (Hreg _ _ H1) as (e1 & He1 & <-).
  destruct (Hreg _ _ H2) as (e2 & He2 & <-). congruence.
Qed.

End one_socket.

(** ** Reuse of connections *)

(** C3: in every state the server reaches, [io()] has been called at most
    once per destination, the entry of a destination holds the socket
    created for it, and a further [connectSocket] or request for a
    destination that has an entry resolves with that socket, whatever the
    credentials, and creates neither a socket nor an entry. *)
Theorem one_connection_per_destination (evs : list Event) (w : Server) :
  run evs init = Some w →
  NoDup (uris w)
  ∧ ∀ uri e, sockets w !! uri = Some e →
      uris w !! socket e = Some uri
      ∧ (∀ credentials, connectSocket uri credentials w = (w, (socket e, true)))
      ∧ (∀ ep body, ToPropertyKey (obj_get body "uri") = uri →
           sockets (http ep body w) = sockets w ∧ socks (http ep body w) = socks w).
Proof.
  intros Hrun.
  pose proof (run_registry_inv _ _ _ Hrun registry_inv_init) as Hinv.
  split; [by apply registry_inv_NoDup|].
  intros uri e He. split; [by apply Hinv|]. split.
  - intros credentials. by apply connectSocket_reuse.
  - intros ep body Huri. destruct (invalid ep body) eqn:Hv.
    + by rewrite http_invalid.
    + destruct (http_registry ep body w Hv) as [-> ->].
      rewrite Huri. by rewrite (connectSocket_reuse _ _ _ _ He).
Qed.

Lemma one_connection_per_destination_witness :
  NoDup (uris sample_state)
  ∧ ∀ uri e, sockets sample_state !! uri = Some e →
      uris sample_state !! socket e = Some uri
      ∧ (∀ credentials,
           connectSocket uri credentials sample_state = (sample_state, (socket e, true)))
      ∧ (∀ ep body, ToPropertyKey (obj_get body "uri") = uri →
           sockets (http ep body sample_state) = sockets sample_state
           ∧ socks (http ep body sample_state) = socks sample_state).
Proof.
  apply (one_connection_per_destination sample_run sample_state).
  by vm_compute.
Defined.

(** ** Failed establishment *)

(** The entry that [connectSocket] stores at line 36 outlives every run. *)
Lemma entry_survives_run uri credentials w0 evs w :
  sockets w0 !! uri = None →
  run evs (connectSocket uri credentials w0).1 = Some w →
  ∃ e, sockets w !! uri = Some e ∧ socket e = length (socks w0)
       ∧ (forallb (λ ev, negb (is_push ev)) evs = true →
          e = {| socket := length (socks w0); monitors := []; is_array := true |}).
Proof.
  intros Hnone Hrun.
  destruct (connectSocket_create uri credentials w0 Hnone) as (w1 & Hc & Hs & _).
  rewrite Hc in Hrun. simpl in Hrun.
  destruct (run_entry evs w1 w uri {| socket := length (socks w0); monitors := [];
         is_array := true |} Hrun)
    as (e & He & Hsock & Hsame).
  { rewrite Hs. by rewrite lookup_insert_eq. }
  exists e. split; [done|]. split; [done|].
  intros Hevs. by rewrite (Hsame Hevs).
Qed.

(** C1, as the code has it: when the establishment started by
    [connectSocket] for a new destination fails, the entry stored when it
    started is still in the registry, and a later [connectSocket] for the
    destination resolves at once with the socket of that entry and starts
    no establishment. *)
Theorem failed_establishment_entry_is_reused
    (uri : string) (credentials : JSValue) (w0 : Server) (evs : list Event) (w : Server) :
  sockets w0 !! uri = None →
  run evs (connectSocket uri credentials w0).1 = Some w →
  establishment_failed w (length (socks w0)) →
  ∃ e, sockets w !! uri = Some e ∧ socket e = length (socks w0)
       ∧ ∀ credentials',
           connectSocket uri credentials' w = (w, (length (socks w0), true)).
Proof.
  intros Hnone Hrun _.
  destruct (entry_survives_run _ _ _ _ _ Hnone Hrun) as (e & He & Hs & _).
  exists e. split; [done|]. split; [done|].
  intros credentials'. rewrite <- Hs. by apply connectSocket_reuse.
Qed.

Lemma failed_establishment_entry_is_reused_witness :
  ∃ e, sockets login_rejected_state !! "ws://h:1" = Some e ∧ socket e = 0
       ∧ ∀ credentials',
           connectSocket "ws://h:1" credentials' login_rejected_state
           = (login_rejected_state, (0, true)).
Proof.
  apply (failed_establishment_entry_is_reused
           "ws://h:1" sample_credentials init login_rejected_run login_rejected_state).
  - by vm_compute.
  - by vm_compute.
  - exists {| sock_uri := "ws://h:1"; sock_credentials := sample_credentials;
              connected := true; promise := Rejected (JStr "Login failed");
              logins_pending := 0 |}, (JStr "Login failed").
    by vm_compute.
Defined.

(** C1, as stated, fails: after a rejected login the promise of the
    socket is rejected, yet the registry holds an entry for the
    destination and the next [connectSocket] reuses it. *)
Lemma failed_establishment_leaves_entry :
  establishment_failed login_rejected_state 0
  ∧ sockets login_rejected_state !! "ws://h:1" = Some {| socket := 0; monitors := []; is_array := true |}
  ∧ sockets login_rejected_state !! "ws://h:1" ≠ None
  ∧ connectSocket "ws://h:1" sample_credentials login_rejected_state
    = (login_rejected_state, (0, true)).
Proof.
  split; [|split; [by vm_compute|split; [by vm_compute|by vm_compute]]].
  exists {| sock_uri := "ws://h:1"; sock_credentials := sample_credentials;
            connected := true; promise := Rejected (JStr "Login failed");
            logins_pending := 0 |}, (JStr "Login failed").
  by vm_compute.
Qed.

(** ** Requests *)

Section requests.
Implicit Types (w : Server) (s : SocketId) (r : Request) (body : JSObject).

(** A valid request for a destination that has an entry runs up to the
    code after the [await] in the same turn. *)
Lemma http_reuse ep body w e :
  invalid ep body = false →
  sockets w !! ToPropertyKey (obj_get body "uri") = Some e →
  http ep body w =
    set_reqs (λ l, l ++ [resume w (socket e)
                           match ep with
                           | Emit => set_timer true (new_request ep body)
                           | _ => new_request ep body
                           end]) w.
Proof.
  intros Hv He. unfold http. rewrite Hv.
  replace (req_uri (new_request ep body)) with (obj_get body "uri") by done.
  by rewrite (connectSocket_reuse _ _ _ _ He).
Qed.

Lemma resume_disconnected w s r :
  socket_connected w s = false →
  resume w s r
  = set_phase Finished (respond 503 (error_body "Socket.IO disconnected") r).
Proof. intros Hc. unfold resume. by rewrite Hc. Qed.

Lemma invalid_falsy ep body k :
  k ∈ required ep →
  ToBoolean (obj_get body k) = false →
  invalid ep body = true.
Proof.
  intros Hk Hf. unfold invalid. unfold required in Hk.
  destruct ep; repeat (apply elem_of_cons in Hk as [->|Hk]);
    try (by apply elem_of_nil in Hk); rewrite Hf; simpl;
    rewrite ?orb_true_r; done.
Qed.

(** The ack callback, whatever the [ok] property holds. *)
Lemma ack_arrives_truthiness w n r s ack ok :
  reqs w !! n = Some r → phase r = AwaitAck s → get ack "ok" = Some ok →
  ack_arrives n ack w
  = Some (set_reqs
            <[n := set_phase Finished
                     (respond (if ToBoolean ok then 200 else 400) ack
                        (set_timer false r))]> w).
Proof.
  intros Hr Hp Hok. unfold ack_arrives. rewrite Hr. simpl. rewrite Hp, Hok.
  simpl. by destruct (ToBoolean ok).
Qed.

(** After the ack callback has run, neither the timer nor a second ack
    can run for the request. *)
Lemma ack_disarms_timer w w' n ack ack' :
  ack_arrives n ack w = Some w' →
  timer_fires n w' = None ∧ ack_arrives n ack' w' = None.
Proof.
  unfold ack_arrives at 1. intros Hack.
  destruct (reqs w !! n) as [r|] eqn:Hr; simpl in Hack; [|done].
  destruct (phase r) eqn:Hp; try done.
  destruct (get ack "ok") as [ok|]; simpl in Hack; [|done].
  injection Hack as <-.
  unfold timer_fires, ack_arrives. simpl.
  rewrite list_lookup_insert_eq by by eapply lookup_lt_Some.
  simpl. by destruct (ToBoolean ok).
Qed.

End requests.

(** C5: when the code after [await connectSocket(...)] finds the socket
    not connected, the request gets the response 503
    [{ error: "Socket.IO disconnected" }], nothing is emitted on the
    socket and no ack callback is registered; a valid [/emit] request for
    a destination whose entry holds a socket that is not connected gets
    exactly that response in the turn in which it arrives. *)
Theorem disconnected_socket_gets_503 (w : Server) (s : SocketId) :
  socket_connected w s = false →
  (∀ r, responses (resume w s r)
        = responses r ++ [{| status := 503;
                             body := error_body "Socket.IO disconnected" |}]
        ∧ emitted (resume w s r) = emitted r
        ∧ phase (resume w s r) = Finished)
  ∧ (∀ body e,
       invalid Emit body = false →
       sockets w !! ToPropertyKey (obj_get body "uri") = Some e →
       socket e = s →
       ∃ r, step (Http Emit body) w = Some (set_reqs (λ l, l ++ [r]) w)
            ∧ responses r = [{| status := 503;
                                body := error_body "Socket.IO disconnected" |}]
            ∧ emitted r = []
            ∧ phase r = Finished).
Proof.
  intros Hc. split.
  - intros r. by rewrite resume_disconnected.
  - intros body e Hv He <-. eexists. simpl. split.
    + by rewrite (http_reuse _ _ _ _ Hv He).
    + by rewrite resume_disconnected.
Qed.

Lemma disconnected_socket_gets_503_witness :
  (∀ r, responses (resume connecting_state 0 r)
        = responses r ++ [{| status := 503;
                             body := error_body "Socket.IO disconnected" |}]
        ∧ emitted (resume connecting_state 0 r) = emitted r
        ∧ phase (resume connecting_state 0 r) = Finished)
  ∧ (∀ body e,
       invalid Emit body = false →
       sockets connecting_state !! ToPropertyKey (obj_get body "uri") = Some e →
       socket e = 0 →
       ∃ r, step (Http Emit body) connecting_state
            = Some (set_reqs (λ l, l ++ [r]) connecting_state)
            ∧ responses r = [{| status := 503;
                                body := error_body "Socket.IO disconnected" |}]
            ∧ emitted r = []
            ∧ phase r = Finished).
Proof. apply (disconnected_socket_gets_503 connecting_state 0). by vm_compute. Defined.

(** C6: when the ack callback of an emitted event runs with an ack whose
    [ok] flag is a boolean, the request gets the response 400 with the ack
    as its body if the flag is false and the response 200 with the ack as
    its body if the flag is true; the timer is cleared. *)
Theorem ack_flag_decides_response
    (w : Server) (n : nat) (r : Request) (s : SocketId) (ack : JSValue) (b : bool) :
  reqs w !! n = Some r →
  phase r = AwaitAck s →
  get ack "ok" = Some (JBool b) →
  ∃ w' r' resp,
    step (Ack n ack) w = Some w'
    ∧ reqs w' !! n = Some r'
    ∧ responses r' = responses r ++ [resp]
    ∧ body resp = ack
    ∧ (status resp = 400%Z ↔ b = false)
    ∧ (status resp = 200%Z ↔ b = true)
    ∧ timer_armed r' = false.
Proof.
  intros Hr Hp Hok. simpl.
  rewrite (ack_arrives_truthiness _ _ _ _ _ _ Hr Hp Hok). simpl.
  eexists _, _, _. split; [done|]. split.
  - apply list_lookup_insert_eq. by eapply lookup_lt_Some.
  - simpl. split; [done|]. split; [done|]. by destruct b.
Qed.

Lemma ack_flag_decides_response_witness :
  ∃ w' r' resp,
    step (Ack 0 ok_false) emitted_state = Some w'
    ∧ reqs w' !! 0 = Some r'
    ∧ responses r' = responses emitted_request ++ [resp]
    ∧ body resp = ok_false
    ∧ (status resp = 400%Z ↔ false = false)
    ∧ (status resp = 200%Z ↔ false = true)
    ∧ timer_armed r' = false.
Proof.
  apply (ack_flag_decides_response emitted_state 0 emitted_request 0 ok_false false).
  - by vm_compute.
  - by vm_compute.
  - by vm_compute.
Defined.

(** C7: a request on any of the three endpoints that lacks one of its
    required fields gets the response 400 with the validation message of
    its endpoint; the handler returns at once, having set no timer, called
    no [connectSocket], emitted nothing and left registry and sockets as
    they were. *)
Theorem missing_field_is_rejected
    (ep : Endpoint) (body : JSObject) (w : Server) (k : string) :
  k ∈ required ep →
  obj_get body k = JUndefined →
  ∃ w' r,
    step (Http ep body) w = Some w'
    ∧ sockets w' = sockets w
    ∧ socks w' = socks w
    ∧ reqs w' = reqs w ++ [r]
    ∧ responses r = [{| status := 400; body := error_body (validation_message ep) |}]
    ∧ phase r = Finished
    ∧ timer_armed r = false
    ∧ emitted r = [].
Proof.
  intros Hk Hmiss. simpl.
  rewrite http_invalid by (eapply invalid_falsy; [done|by rewrite Hmiss]).
  by eexists _, _.
Qed.

Lemma missing_field_is_rejected_witness :
  ∃ w' r,
    step (Http Groups [("credentials", sample_credentials)]) sample_state = Some w'
    ∧ sockets w' = sockets sample_state
    ∧ socks w' = socks sample_state
    ∧ reqs w' = reqs sample_state ++ [r]
    ∧ responses r
      = [{| status := 400; body := error_body (validation_message Groups) |}]
    ∧ phase r = Finished
    ∧ timer_armed r = false
    ∧ emitted r = [].
Proof.
  apply (missing_field_is_rejected
           Groups [("credentials", sample_credentials)] sample_state "uri").
  - by apply (bool_decide_unpack _).
  - reflexivity.
Defined.

Lemma falsy_values (v : JSValue) :
  ToBoolean v = false ↔ v ∈ [JUndefined; JNull; JBool false; JNum 0; JStr ""].
Proof.
  rewrite !elem_of_cons, elem_of_nil. split.
  - destruct v as [| |b|n|s|items|props]; simpl; try done; auto.
    + destruct b; [done|]. auto.
    + intros Hn%negb_false_iff%Z.eqb_eq. subst. auto 10.
    + destruct s; [auto 10|done].
  - intros [->|[->|[->|[->|[->|[]]]]]]; done.
Qed.

(** C10: [/emit] answers 400 whenever one of its required fields
    ([uri], [credentials], [event], [payload]) is falsy, that is, absent
    or present with the value [null], [false], [0] or the empty string,
    and leaves registry and sockets as they were; yet on the emit path a
    [null] payload would have been sent as [{}]. *)
Theorem falsy_field_is_rejected (body : JSObject) (w : Server) (k : string) :
  k ∈ required Emit →
  ToBoolean (obj_get body k) = false →
  (∃ w' r,
     step (Http Emit body) w = Some w'
     ∧ sockets w' = sockets w
     ∧ socks w' = socks w
     ∧ reqs w' = reqs w ++ [r]
     ∧ responses r
       = [{| status := 400; body := error_body (validation_message Emit) |}]
     ∧ phase r = Finished)
  ∧ (∀ v, ToBoolean v = false
          ↔ v ∈ [JUndefined; JNull; JBool false; JNum 0; JStr ""])
  ∧ (∀ s r, endpoint r = Emit → req_payload r = JNull →
       socket_connected w s = true →
       emitted (resume w s r) = emitted r ++ [(s, req_event r, JObj [])]).
Proof.
  intros Hk Hfalsy. split; [|split].
  - simpl. rewrite http_invalid; [by eexists _, _|].
    by apply (invalid_falsy Emit body k).
  - apply falsy_values.
  - intros s r Hep Hpay Hc. unfold resume. by rewrite Hc, Hep, Hpay.
Qed.

Lemma falsy_field_is_rejected_witness :
  (∃ w' r,
     step (Http Emit [("uri", JStr "ws://h:1"); ("credentials", JNull);
                      ("event", JStr "ping"); ("payload", JObj [])]) sample_state
     = Some w'
     ∧ sockets w' = sockets sample_state
     ∧ socks w' = socks sample_state
     ∧ reqs w' = reqs sample_state ++ [r]
     ∧ responses r
       = [{| status := 400; body := error_body (validation_message Emit) |}]
     ∧ phase r = Finished)
  ∧ (∀ v, ToBoolean v = false
          ↔ v ∈ [JUndefined; JNull; JBool false; JNum 0; JStr ""])
  ∧ (∀ s r, endpoint r = Emit → req_payload r = JNull →
       socket_connected sample_state s = true →
       emitted (resume sample_state s r) = emitted r ++ [(s, req_event r, JObj [])]).
Proof.
  apply (falsy_field_is_rejected
           [("uri", JStr "ws://h:1"); ("credentials", JNull);
            ("event", JStr "ping"); ("payload", JObj [])] sample_state "credentials").
  - by apply (bool_decide_unpack _).
  - reflexivity.
Defined.

(** ** A new entry *)



(** ** The race between the ack and the timer *)

(** The timer callback leaves the ack callback registered: when the timer
    of a request that waits for its ack fires and the ack arrives
    afterwards, both write a response. *)
Lemma timeout_then_ack (w : Server) (n : nat) (r : Request) (s : SocketId)
    (ack ok : JSValue) :
  reqs w !! n = Some r →
  phase r = AwaitAck s →
  timer_armed r = true →
  get ack "ok" = Some ok →
  ∃ w' r',
    run [TimerFires n; Ack n ack] w = Some w'
    ∧ reqs w' !! n = Some r'
    ∧ responses r'
      = responses r
        ++ [{| status := 504; body := timeout_body (req_event r) |};
            {| status := if ToBoolean ok then 200 else 400; body := ack |}].
Proof.
  intros Hr Hp Ht Hok. simpl. unfold timer_fires. rewrite Hr. simpl. rewrite Ht.
  simpl.
  pose proof (lookup_lt_Some _ _ _ Hr) as Hlt.
  rewrite (ack_arrives_truthiness _ n
             (respond 504 (timeout_body (req_event r)) (set_timer false r)) s ack ok);
    [|by apply list_lookup_insert_eq|done|done].
  simpl. eexists _, _. split; [done|]. split.
  - apply list_lookup_insert_eq. simpl. by rewrite length_insert.
  - simpl. by rewrite <- app_assoc.
Qed.

(** C2, at a request whose deadline passes before the ack arrives: once
    the timer has written the 504 the request still waits for its ack, and
    the ack that arrives then writes a second response on the same [res]. *)
Theorem late_ack_writes_second_response :
  (w ← run (take 5 late_ack_run) init; r ← reqs w !! 0;
   Some (phase r, timer_armed r, responses r))
  = Some (AwaitAck 0, false,
          [{| status := 504; body := timeout_body (JStr "ping") |}])
  ∧ (w ← run late_ack_run init; r ← reqs w !! 0; Some (responses r))
    = Some [{| status := 504; body := timeout_body (JStr "ping") |};
            {| status := 200; body := ok_true |}].
Proof. split; by vm_compute. Qed.

(** * Further properties of the handlers and listeners *)

(** ** How requests evolve *)

Section request_steps.
Implicit Types (w : Server) (s : SocketId) (r : Request) (n : nat).

Lemma resume_set_phase w s p r : resume w s (set_phase p r) = resume w s r.
Proof.
  unfold resume. simpl. destruct (negb (socket_connected w s)); [done|].
  by destruct (endpoint r).
Qed.

Lemma http_reqs ep body w :
  ∃ r, reqs (http ep body w) = reqs w ++ [r] ∧ fresh_request ep body r.
Proof.
  unfold http. destruct (invalid ep body) eqn:Hv.
  - eexists. split; [done|]. by left.
  - replace (req_uri (new_request ep body)) with (obj_get body "uri") by done.
    assert (∃ w1 s ready,
              connectSocket (ToPropertyKey (obj_get body "uri"))
                (obj_get body "credentials") w = (w1, (s, ready))
              ∧ reqs w1 = reqs w) as (w1 & s & ready & -> & Hr).
    { unfold connectSocket.
      destruct (sockets w !! ToPropertyKey (obj_get body "uri")); by eexists _, _, _. }
    simpl. rewrite Hr. eexists. split; [done|]. right. split; [done|].
    exists s. destruct ready.
    + rewrite <- (resume_set_phase w1 s (AwaitSocket s)). by apply req_resume.
    + apply req_same.
Qed.

Lemma settle_reqs_length s p w : length (reqs (settle s p w)) = length (reqs w).
Proof.
  unfold settle. destruct (socks w !! s) as [st|]; [|done].
  destruct (promise st); try done. simpl. by rewrite length_map.
Qed.

Lemma settle_reqs s p w n r :
  reqs w !! n = Some r →
  ∃ r', reqs (settle s p w) !! n = Some r' ∧ req_step r r'.
Proof.
  intros Hr. unfold settle. destruct (socks w !! s) as [st|].
  2:{ exists r. split; [done|apply req_same]. }
  destruct (promise st); try (exists r; split; [done|apply req_same]).
  simpl. change (map ?f ?l) with (f <$> l). rewrite list_lookup_fmap, Hr. simpl.
  eexists. split; [done|].
  unfold awaits. destruct (phase r) as [s'| |] eqn:Hp; try apply req_same.
  case_bool_decide as Hs; [subst s'|apply req_same].
  destruct p; [by apply req_abort with s|by apply req_resume|by apply req_abort with s].
Qed.

Lemma step_reqs_length ev w w' :
  step ev w = Some w' →
  length (reqs w') = length (reqs w) ∨ ∃ ep body, ev = Http ep body.
Proof.
  intros Hstep. destruct ev as [ep body|s sev|k|k ack]; simpl in Hstep.
  - right. by eexists _, _.
  - left. unfold sock in Hstep.
    destruct (socks w !! s) as [st|]; simpl in Hstep; [|done].
    destruct sev as [|reason|p| |response].
    + by injection Hstep as <-.
    + injection Hstep as <-. by rewrite settle_reqs_length.
    + destruct (sockets w !! sock_uri st) as [e0|]; simpl in Hstep; [|done].
      destruct (push_entry p e0) as [e1|] eqn:Hpush; simpl in Hstep; [|done].
      by injection Hstep as <-.
    + by injection Hstep as <-.
    + destruct (logins_pending st); [done|].
      destruct (get response "ok") as [ok|]; simpl in Hstep; [|done].
      injection Hstep as <-. destruct (ToBoolean ok); by rewrite settle_reqs_length.
  - left. unfold timer_fires in Hstep.
    destruct (reqs w !! k) as [req|]; simpl in Hstep; [|done].
    destruct (timer_armed req); [|done]. injection Hstep as <-.
    simpl. by rewrite length_insert.
  - left. unfold ack_arrives in Hstep.
    destruct (reqs w !! k) as [req|]; simpl in Hstep; [|done].
    destruct (phase req); try done.
    destruct (get ack "ok"); simpl in Hstep; [|done].
    injection Hstep as <-. simpl. by rewrite length_insert.
Qed.

(** A request keeps its place in [reqs] and moves by one [req_step]. *)
Lemma step_reqs_old ev w w' n r :
  step ev w = Some w' → reqs w !! n = Some r →
  ∃ r', reqs w' !! n = Some r' ∧ req_step r r'.
Proof.
  intros Hstep Hr. destruct ev as [ep body|s sev|k|k ack]; simpl in Hstep.
  - injection Hstep as <-. destruct (http_reqs ep body w) as (r0 & -> & _).
    exists r. split; [|apply req_same].
    apply lookup_app_l_Some. done.
  - unfold sock in Hstep.
    destruct (socks w !! s) as [st|]; simpl in Hstep; [|done].
    destruct sev as [|reason|p| |response].
    + injection Hstep as <-. exists r. split; [done|apply req_same].
    + injection Hstep as <-. by apply settle_reqs.
    + destruct (sockets w !! sock_uri st) as [e0|]; simpl in Hstep; [|done].
      destruct (push_entry p e0) as [e1|] eqn:Hpush; simpl in Hstep; [|done].
      injection Hstep as <-. exists r. split; [done|apply req_same].
    + injection Hstep as <-. exists r. split; [done|apply req_same].
    + destruct (logins_pending st); [done|].
      destruct (get response "ok") as [ok|]; simpl in Hstep; [|done].
      injection Hstep as <-. destruct (ToBoolean ok); by apply settle_reqs.
  - unfold timer_fires in Hstep.
    destruct (reqs w !! k) as [req|] eqn:Hk; simpl in Hstep; [|done].
    destruct (timer_armed req) eqn:Ht; [|done]. injection Hstep as <-. simpl.
    destruct (decide (k = n)) as [->|Hne].
    + rewrite list_lookup_insert_eq by by eapply lookup_lt_Some.
      eexists. split; [done|]. replace r with req by congruence.
      by apply req_timer.
    + rewrite list_lookup_insert_ne by done.
      exists r. split; [done|apply req_same].
  - unfold ack_arrives in Hstep.
    destruct (reqs w !! k) as [req|] eqn:Hk; simpl in Hstep; [|done].
    destruct (phase req) as [|s|] eqn:Hp; try done.
    destruct (get ack "ok") as [ok|]; simpl in Hstep; [|done].
    injection Hstep as <-. simpl.
    destruct (decide (k = n)) as [->|Hne].
    + rewrite list_lookup_insert_eq by by eapply lookup_lt_Some.
      eexists. split; [done|]. replace r with req by congruence.
      destruct (ToBoolean ok); simpl; by apply req_ack with s.
    + rewrite list_lookup_insert_ne by done.
      exists r. split; [done|apply req_same].
Qed.

(** A request that appears in a turn is the one that arrived in it. *)
Lemma step_reqs_new ev w w' n r' :
  step ev w = Some w' → reqs w' !! n = Some r' → reqs w !! n = None →
  ∃ ep body, ev = Http ep body ∧ fresh_request ep body r'.
Proof.
  intros Hstep Hr' Hnone.
  destruct (step_reqs_length _ _ _ Hstep) as [Hlen|(ep & body & ->)].
  - apply lookup_ge_None in Hnone. apply lookup_lt_Some in Hr'. lia.
  - exists ep, body. split; [done|]. simpl in Hstep. injection Hstep as <-.
    destruct (http_reqs ep body w) as (r0 & Heq & Hfresh). rewrite Heq in Hr'.
    apply lookup_snoc_Some in Hr' as [[Hlt Hold]|[_ <-]]; [congruence|done].
Qed.

(** An invariant of requests: it holds of a request turned away, of a
    request that starts to wait for its socket, and every [req_step]
    keeps it. *)
Lemma run_request_invariant (P : Request → Prop) :
  (∀ ep body, invalid ep body = true → P (rejected ep body)) →
  (∀ ep body s, invalid ep body = false →
     P (set_phase (AwaitSocket s) (arm ep (new_request ep body)))) →
  (∀ r r', P r → req_step r r' → P r') →
  ∀ evs w w',
    (∀ n r, reqs w !! n = Some r → P r) →
    run evs w = Some w' →
    ∀ n r, reqs w' !! n = Some r → P r.
Proof.
  intros Hrej Hwait Hkeep evs.
  induction evs as [|ev evs IH]; intros w w' Hw Hrun n r Hr; simpl in Hrun.
  - injection Hrun as <-. by eapply Hw.
  - destruct (step ev w) as [w1|] eqn:Hstep; simpl in Hrun; [|done].
    eapply (IH w1 w'); [|done|done].
    intros k r1 Hk. destruct (reqs w !! k) as [r0|] eqn:H0.
    + destruct (step_reqs_old _ _ _ _ _ Hstep H0) as (r1' & Hk' & Hs).
      replace r1 with r1' by congruence. eapply Hkeep; [|done]. by eapply Hw.
    + destruct (step_reqs_new _ _ _ _ _ Hstep Hk H0) as (ep & body & _ & Hf).
      destruct Hf as [[Hv ->]|[Hv [s Hs]]]; [by apply Hrej|].
      eapply Hkeep; [|done]. by apply Hwait.
Qed.

End request_steps.

(** ** Responses of a request *)

Lemma req_step_frozen (r r' : Request) :
  phase r = Finished → timer_armed r = false → req_step r r' → r' = r.
Proof. intros Hp Ht Hs. destruct Hs; congruence. Qed.

Lemma run_frozen (evs : list Event) (w w' : Server) (n : nat) (r : Request) :
  run evs w = Some w' → reqs w !! n = Some r →
  phase r = Finished → timer_armed r = false →
  reqs w' !! n = Some r.
Proof.
  revert w. induction evs as [|ev evs IH]; intros w Hrun Hr Hp Ht; simpl in Hrun.
  - by injection Hrun as <-.
  - destruct (step ev w) as [w1|] eqn:Hstep; simpl in Hrun; [|done].
    destruct (step_reqs_old _ _ _ _ _ Hstep Hr) as (r' & Hr' & Hs).
    rewrite (req_step_frozen _ _ Hp Ht Hs) in Hr'. by eapply IH.
Qed.

(** X1: a request in phase [Finished] (its handler has returned or
    thrown and it has no ack callback registered) whose timer is not
    armed is left as it is by every event: the handler and its callbacks
    make no further call on its [res], whatever happens to its socket and
    whatever other requests arrive. *)
Theorem finished_request_never_changes
    (evs : list Event) (w w' : Server) (n : nat) (r : Request) :
  run evs w = Some w' →
  reqs w !! n = Some r →
  phase r = Finished →
  timer_armed r = false →
  reqs w' !! n = Some r.
Proof. apply run_frozen. Qed.

Lemma finished_request_never_changes_witness :
  reqs dropped_state !! 1 = Some listed_request.
Proof.
  apply (finished_request_never_changes drop_run sample_state dropped_state 1
           listed_request); by vm_compute.
Defined.

(** X2: a request whose ack callback has run is settled for good: the
    callback has cleared the timer, so in every continuation of the run
    the request stays as the callback left it. *)
Theorem acked_request_is_final
    (w w1 w2 : Server) (n : nat) (ack : JSValue) (evs : list Event) :
  ack_arrives n ack w = Some w1 →
  run evs w1 = Some w2 →
  reqs w2 !! n = reqs w1 !! n
  ∧ ∃ r, reqs w1 !! n = Some r ∧ timer_armed r = false ∧ phase r = Finished.
Proof.
  unfold ack_arrives. intros Hack Hrun.
  destruct (reqs w !! n) as [r|] eqn:Hr; simpl in Hack; [|done].
  destruct (phase r) eqn:Hp; try done.
  destruct (get ack "ok") as [ok|]; simpl in Hack; [|done].
  injection Hack as <-. simpl in *.
  pose proof (lookup_lt_Some _ _ _ Hr) as Hlt.
  rewrite list_lookup_insert_eq by done.
  split; [|destruct (ToBoolean ok); by eexists].
  eapply run_frozen; [done| |by destruct (ToBoolean ok)..].
  simpl. by apply list_lookup_insert_eq.
Qed.

Lemma acked_request_is_final_witness :
  reqs after_ack_state !! 0 = reqs acked_state !! 0
  ∧ ∃ r, reqs acked_state !! 0 = Some r ∧ timer_armed r = false ∧ phase r = Finished.
Proof.
  apply (acked_request_is_final emitted_state acked_state after_ack_state 0 ok_true
           after_ack_run); by vm_compute.
Defined.

Lemma req_step_endpoint (r r' : Request) : req_step r r' → endpoint r' = endpoint r.
Proof.
  intros Hs. destruct Hs as [r|w s r _|s r _|r _|s code ack r _]; try done.
  unfold resume. destruct (negb (socket_connected w s)); [done|].
  destruct (endpoint r) eqn:He; simpl; try done.
  - by destruct (sockets w !! ToPropertyKey (req_uri r)).
  - destruct (sockets w !! ToPropertyKey (req_uri r)) as [e|]; [|done].
    by destruct (groups_body (monitors e)).
Qed.

Ltac budget_arith :=
  simpl in *; rewrite ?length_app; simpl;
  repeat match goal with
         | |- context [timer_armed ?r] => destruct (timer_armed r); simpl in *
         | |- context [response_limit (endpoint ?r)] =>
             destruct (endpoint r); simpl in *
         | |- context [match phase ?r with _ => _ end] =>
             destruct (phase r); simpl in *
         end;
  simpl in *; try lia; try done.

Lemma req_step_within_budget (r r' : Request) :
  within_budget r → req_step r r' → within_budget r'.
Proof.
  unfold within_budget, budget. intros Hb Hs.
  rewrite (req_step_endpoint _ _ Hs).
  destruct Hs as [r|w s r Hp|s r Hp|r Ht|s code ack r Hp]; simpl.
  - done.
  - rewrite Hp in Hb. unfold resume.
    destruct (negb (socket_connected w s)); [budget_arith|].
    destruct (endpoint r) eqn:He.
    + budget_arith.
    + destruct (sockets w !! ToPropertyKey (req_uri r)); budget_arith.
    + destruct (sockets w !! ToPropertyKey (req_uri r)) as [e|]; [|budget_arith].
      destruct (groups_body (monitors e)); budget_arith.
  - rewrite Hp in Hb. budget_arith.
  - rewrite Ht in Hb. budget_arith.
  - rewrite Hp in Hb. budget_arith.
Qed.

(** X3: in every state the server reaches, a [/monitors] or [/groups]
    request has been answered at most once and an [/emit] request at most
    twice (its timer and its handler each write at most one response). *)
Theorem responses_are_bounded (evs : list Event) (w : Server) (n : nat) (r : Request) :
  run evs init = Some w →
  reqs w !! n = Some r →
  length (responses r) ≤ 2
  ∧ (endpoint r ≠ Emit → length (responses r) ≤ 1).
Proof.
  intros Hrun Hr.
  assert (within_budget r) as Hb.
  { eapply (run_request_invariant within_budget); [| | |
      |exact Hrun|exact Hr].
    - intros ep body _. unfold within_budget, budget. by destruct ep; simpl; lia.
    - intros ep body s _. unfold within_budget, budget. by destruct ep; simpl; lia.
    - apply req_step_within_budget.
    - intros k r0 Hk. done. }
  unfold within_budget in Hb. split.
  - destruct (endpoint r); simpl in Hb; lia.
  - intros He. destruct (endpoint r); simpl in Hb; [done|lia|lia].
Qed.

Lemma responses_are_bounded_witness :
  length (responses late_ack_request) ≤ 2
  ∧ (endpoint late_ack_request ≠ Emit → length (responses late_ack_request) ≤ 1).
Proof.
  apply (responses_are_bounded late_ack_run late_ack_state 0 late_ack_request);
    by vm_compute.
Defined.

Lemma truthy_nullish (v b : JSValue) : ToBoolean v = true → nullish v b = v.
Proof. by destruct v. Qed.

Lemma req_step_emits_own_payload (r r' : Request) :
  emits_own_payload r → req_step r r' → emits_own_payload r'.
Proof.
  intros [Hem Hwait] Hs.
  destruct Hs as [r|w s r Hp|s r Hp|r Ht|s code ack r Hp]; try (split; done).
  unfold resume. destruct (negb (socket_connected w s)); [split; done|].
  destruct (endpoint r) eqn:He.
  - split; [|done]. simpl. intros x [Hx|Hx]%elem_of_app; [by apply Hem|].
    apply list_elem_of_singleton in Hx as ->.
    pose proof (Hwait s Hp eq_refl) as Htruthy.
    exists s. by rewrite truthy_nullish.
  - destruct (sockets w !! ToPropertyKey (req_uri r)); split; try done;
      simpl; congruence.
  - destruct (sockets w !! ToPropertyKey (req_uri r)) as [e|];
      [destruct (groups_body (monitors e))|]; split; try done; simpl; congruence.
Qed.

(** X4: in every state the server reaches, whatever a request has emitted
    on a socket is its own event with its own payload, and that payload is
    truthy: the fallback [{}] of line 104 is never sent in place of a
    payload. *)
Theorem emissions_carry_own_payload
    (evs : list Event) (w : Server) (n : nat) (r : Request)
    (x : SocketId * JSValue * JSValue) :
  run evs init = Some w →
  reqs w !! n = Some r →
  x ∈ emitted r →
  ∃ s, x = (s, req_event r, req_payload r) ∧ ToBoolean (req_payload r) = true.
Proof.
  intros Hrun Hr Hx.
  assert (emits_own_payload r) as [Hem _]; [|by apply Hem].
  eapply (run_request_invariant emits_own_payload); [| | | |exact Hrun|exact Hr].
  - intros ep body _. split; [|done]. intros y Hy. by apply elem_of_nil in Hy.
  - intros ep body s Hv. split.
    + intros y Hy. destruct ep; by apply elem_of_nil in Hy.
    + intros s' _ Hep. destruct ep; try done. simpl.
      unfold invalid in Hv. apply orb_false_elim in Hv as [_ Hv].
      by apply negb_false_iff.
  - apply req_step_emits_own_payload.
  - intros k r0 Hk. done.
Qed.

Lemma emissions_carry_own_payload_witness :
  ∃ s, (0, JStr "ping", JObj []) = (s, req_event late_ack_request, req_payload late_ack_request)
       ∧ ToBoolean (req_payload late_ack_request) = true.
Proof.
  apply (emissions_carry_own_payload late_ack_run late_ack_state 0 late_ack_request).
  - by vm_compute.
  - by vm_compute.
  - apply list_elem_of_singleton. by vm_compute.
Defined.

(** A request in phase [Finished] is touched by one event only, the
    expiry of its own timer. *)
Lemma step_finished_request (ev : Event) (w w' : Server) (n : nat) (r : Request) :
  step ev w = Some w' →
  reqs w !! n = Some r →
  phase r = Finished →
  ev ≠ TimerFires n →
  reqs w' !! n = Some r.
Proof.
  intros Hstep Hr Hph Hev.
  assert (∀ s0 p w0, reqs w0 = reqs w → reqs (settle s0 p w0) !! n = Some r)
    as Hsettle.
  { intros s0 p w0 Hw0. unfold settle.
    destruct (socks w0 !! s0) as [st0|]; [|congruence].
    destruct (promise st0); try congruence.
    simpl. change (map ?g ?l) with (g <$> l). rewrite list_lookup_fmap, Hw0, Hr.
    simpl. unfold awaits. by rewrite Hph. }
  destruct ev as [ep body|s0 sev|k|k ack]; simpl in Hstep.
  - injection Hstep as <-. destruct (http_reqs ep body w) as (r0 & -> & _).
    by apply lookup_app_l_Some.
  - unfold sock in Hstep.
    destruct (socks w !! s0) as [st|] eqn:Hs0; simpl in Hstep; [|done].
    destruct sev as [|reason|p| |response].
    + by injection Hstep as <-.
    + injection Hstep as <-. by apply Hsettle.
    + destruct (sockets w !! sock_uri st) as [e0|]; simpl in Hstep; [|done].
      destruct (push_entry p e0); simpl in Hstep; [|done].
      by injection Hstep as <-.
    + by injection Hstep as <-.
    + destruct (logins_pending st) as [|k]; [done|].
      destruct (get response "ok") as [ok|]; simpl in Hstep; [|done].
      injection Hstep as <-. destruct (ToBoolean ok); by apply Hsettle.
  - unfold timer_fires in Hstep.
    destruct (reqs w !! k) as [req|] eqn:Hk; simpl in Hstep; [|done].
    destruct (timer_armed req) eqn:Hta; [|done]. injection Hstep as <-. simpl.
    rewrite list_lookup_insert_ne; [done|]. intros ->. done.
  - unfold ack_arrives in Hstep.
    destruct (reqs w !! k) as [req|] eqn:Hk; simpl in Hstep; [|done].
    destruct (phase req) eqn:Hpk; try done.
    destruct (get ack "ok"); simpl in Hstep; [|done].
    injection Hstep as <-. simpl.
    rewrite list_lookup_insert_ne; [done|]. intros ->. congruence.
Qed.

Lemma run_finished_request
    (evs : list Event) (w w' : Server) (n : nat) (r : Request) :
  run evs w = Some w' →
  reqs w !! n = Some r →
  phase r = Finished →
  Forall (λ ev, ev ≠ TimerFires n) evs →
  reqs w' !! n = Some r.
Proof.
  intros Hrun Hr Hph Hno. revert w Hrun Hr.
  induction Hno as [|ev evs Hev _ IH]; intros w Hrun Hr; simpl in Hrun.
  - by injection Hrun as <-.
  - destruct (step ev w) as [w1|] eqn:Hstep; simpl in Hrun; [|done].
    apply (IH w1); [done|]. by eapply step_finished_request.
Qed.

(** X5: the 503 of an [/emit] request does not clear its timer: a valid
    [/emit] request for a destination whose socket is not connected is
    answered 503 and its handler returns with the timer still armed, and
    the timer stays armed, the request unchanged, through every run in
    which it does not expire. *)
Theorem emit_503_leaves_timer_armed (w : Server) (body : JSObject) (e : Entry) :
  invalid Emit body = false →
  sockets w !! ToPropertyKey (obj_get body "uri") = Some e →
  socket_connected w (socket e) = false →
  ∃ w1 r,
    step (Http Emit body) w = Some w1
    ∧ reqs w1 !! length (reqs w) = Some r
    ∧ responses r
      = [{| status := 503; body := error_body "Socket.IO disconnected" |}]
    ∧ phase r = Finished
    ∧ timer_armed r = true
    ∧ ∀ evs w2,
        run evs w1 = Some w2 →
        Forall (λ ev, ev ≠ TimerFires (length (reqs w))) evs →
        reqs w2 !! length (reqs w) = Some r.
Proof.
  intros Hv He Hc. simpl.
  rewrite (http_reuse _ _ _ _ Hv He), resume_disconnected by done.
  eexists _, _. split; [done|]. simpl.
  split; [by apply list_lookup_middle|].
  split; [reflexivity|]. split; [done|]. split; [done|].
  intros evs w2 Hrun Hno.
  eapply run_finished_request; [done| |done|done].
  simpl. by apply list_lookup_middle.
Qed.

Lemma emit_503_leaves_timer_armed_witness :
  ∃ w1 r,
    step (Http Emit sample_body) connecting_state = Some w1
    ∧ reqs w1 !! length (reqs connecting_state) = Some r
    ∧ responses r
      = [{| status := 503; body := error_body "Socket.IO disconnected" |}]
    ∧ phase r = Finished
    ∧ timer_armed r = true
    ∧ ∀ evs w2,
        run evs w1 = Some w2 →
        Forall (λ ev, ev ≠ TimerFires (length (reqs connecting_state))) evs →
        reqs w2 !! length (reqs connecting_state) = Some r.
Proof.
  apply (emit_503_leaves_timer_armed connecting_state sample_body
           {| socket := 0; monitors := []; is_array := true |}); by vm_compute.
Defined.

(** ** Establishment and the requests that wait for it *)

Lemma settle_pending (s : SocketId) (p : PromiseState) (w : Server) (st : SocketState) :
  socks w !! s = Some st → promise st = Pending →
  settle s p w
  = set_reqs (map (λ r, if awaits s r
                        then match p with
                             | Fulfilled =>
                                 resume (set_socks (alter (set_promise p) s) w) s r
                             | _ => abort r
                             end
                        else r))
      (set_socks (alter (set_promise p) s) w).
Proof. intros Hs Hp. unfold settle. by rewrite Hs, Hp. Qed.

Lemma settle_settled (s : SocketId) (p : PromiseState) (w : Server) (st : SocketState) :
  socks w !! s = Some st → promise st ≠ Pending → settle s p w = w.
Proof. intros Hs Hp. unfold settle. rewrite Hs. by destruct (promise st). Qed.

(** How [settle] leaves the sockets: only the promise of socket [s]
    changes, and only if it was pending. *)
Lemma settle_socks_lookup (s s' : SocketId) (p : PromiseState) (w : Server)
    (st : SocketState) :
  socks w !! s' = Some st →
  ∃ st', socks (settle s p w) !! s' = Some st'
         ∧ (st' = st ∨ (s' = s ∧ promise st = Pending ∧ st' = set_promise p st)).
Proof.
  intros Hs'. unfold settle. destruct (socks w !! s) as [st0|] eqn:Hs; [|by eauto].
  destruct (promise st0) eqn:Hp; try by eauto.
  simpl. destruct (decide (s = s')) as [->|Hne].
  - rewrite list_lookup_alter_eq, Hs'. simpl. eexists. split; [done|].
    right. split; [done|]. split; [congruence|done].
  - rewrite list_lookup_alter_ne by done. eauto.
Qed.

(** A socket that is not connected stays so in every turn that is not
    its [connect] event. *)
Lemma step_unconnected (ev : Event) (w w' : Server) (s : SocketId) (st : SocketState) :
  step ev w = Some w' →
  socks w !! s = Some st →
  connected st = false →
  connects s ev = false →
  ∃ st', socks w' !! s = Some st' ∧ connected st' = false.
Proof.
  intros Hstep Hs Hc Hev.
  assert (∀ (f : SocketState → SocketState) s0,
            (∀ x, connected x = false → connected (f x) = false) →
            ∃ st', alter f s0 (socks w) !! s = Some st' ∧ connected st' = false)
    as Halter.
  { intros f s0 Hf. destruct (decide (s0 = s)) as [->|Hne].
    - rewrite list_lookup_alter_eq, Hs. simpl. eauto.
    - rewrite list_lookup_alter_ne by done. eauto. }
  assert (∀ (f : SocketState → SocketState) s0 p,
            (∀ x, connected x = false → connected (f x) = false) →
            ∃ st', socks (settle s0 p (set_socks (alter f s0) w)) !! s = Some st'
                   ∧ connected st' = false) as Hsettle.
  { intros f s0 p Hf. destruct (Halter f s0 Hf) as (st0 & Hst0 & Hc0).
    destruct (settle_socks_lookup s0 s p (set_socks (alter f s0) w) st0 Hst0)
      as (st1 & Hst1 & [->|(_ & _ & ->)]); eauto. }
  destruct ev as [ep body|s0 sev|k|k ack]; simpl in Hstep.
  - injection Hstep as <-. destruct (invalid ep body) eqn:Hv.
    + rewrite http_invalid by done. eauto.
    + destruct (http_registry ep body w Hv) as [_ ->].
      unfold connectSocket.
      destruct (sockets w !! ToPropertyKey (obj_get body "uri")); simpl; [eauto|].
      exists st. split; [|done]. by apply lookup_app_l_Some.
  - unfold sock in Hstep.
    destruct (socks w !! s0) as [st0|] eqn:Hs0; simpl in Hstep; [|done].
    destruct sev as [|reason|p| |response]; simpl in Hev.
    + injection Hstep as <-. simpl. apply bool_decide_eq_false in Hev.
      rewrite list_lookup_alter_ne by done. eauto.
    + injection Hstep as <-. by apply Hsettle.
    + destruct (sockets w !! sock_uri st0) as [e0|]; simpl in Hstep; [|done].
      destruct (push_entry p e0); simpl in Hstep; [|done].
      injection Hstep as <-. eauto.
    + injection Hstep as <-. simpl. by apply Halter.
    + destruct (logins_pending st0) as [|k]; [done|].
      destruct (get response "ok") as [ok|]; simpl in Hstep; [|done].
      injection Hstep as <-. destruct (ToBoolean ok); by apply Hsettle.
  - unfold timer_fires in Hstep.
    destruct (reqs w !! k) as [req|]; simpl in Hstep; [|done].
    destruct (timer_armed req); [|done]. injection Hstep as <-. eauto.
  - unfold ack_arrives in Hstep.
    destruct (reqs w !! k) as [req|]; simpl in Hstep; [|done].
    destruct (phase req); try done.
    destruct (get ack "ok"); simpl in Hstep; [|done].
    injection Hstep as <-. eauto.
Qed.

Lemma run_unconnected (evs : list Event) (w w' : Server) (s : SocketId)
    (st : SocketState) :
  run evs w = Some w' →
  socks w !! s = Some st →
  connected st = false →
  forallb (λ ev, negb (connects s ev)) evs = true →
  socket_connected w' s = false.
Proof.
  revert w st. induction evs as [|ev evs IH]; intros w st Hrun Hs Hc Hno;
    simpl in Hrun, Hno.
  - injection Hrun as <-. unfold socket_connected. by rewrite Hs.
  - destruct (step ev w) as [w1|] eqn:Hstep; simpl in Hrun; [|done].
    apply andb_prop in Hno as [Hev Hevs]. apply negb_true_iff in Hev.
    destruct (step_unconnected _ _ _ _ _ Hstep Hs Hc Hev) as (st1 & Hs1 & Hc1).
    by eapply IH.
Qed.

(** X6: the socket that [connectSocket] creates for a new destination
    is not connected until its [connect] event: in every run before that
    event, a valid request for the destination, on any of the three
    endpoints, starts no establishment, creates no socket and is answered
    503 in the turn in which it arrives. *)
Theorem request_before_connect_gets_503
    (uri : string) (credentials : JSValue) (w0 : Server) (evs : list Event)
    (w : Server) (ep : Endpoint) (body : JSObject) :
  sockets w0 !! uri = None →
  run evs (connectSocket uri credentials w0).1 = Some w →
  forallb (λ ev, negb (connects (length (socks w0)) ev)) evs = true →
  invalid ep body = false →
  ToPropertyKey (obj_get body "uri") = uri →
  ∃ r,
    step (Http ep body) w = Some (set_reqs (λ l, l ++ [r]) w)
    ∧ responses r = [{| status := 503; body := error_body "Socket.IO disconnected" |}]
    ∧ phase r = Finished
    ∧ emitted r = [].
Proof.
  intros Hnone Hrun Hno Hv Hu.
  destruct (entry_survives_run _ _ _ _ _ Hnone Hrun) as (e & He & Hsock & _).
  assert (socket_connected w (length (socks w0)) = false) as Hc.
  { apply (run_unconnected evs (connectSocket uri credentials w0).1 w _
             {| sock_uri := uri; sock_credentials := credentials;
                connected := false; promise := Pending; logins_pending := 0 |});
      try done.
    unfold connectSocket. rewrite Hnone. simpl. by apply list_lookup_middle. }
  rewrite <- Hu in He. rewrite <- Hsock in Hc. simpl.
  rewrite (http_reuse _ _ _ _ Hv He), resume_disconnected by done.
  eexists. split; [done|]. by destruct ep.
Qed.

Lemma request_before_connect_gets_503_witness :
  ∃ r,
    step (Http Monitors sample_body) slow_start_state
    = Some (set_reqs (λ l, l ++ [r]) slow_start_state)
    ∧ responses r = [{| status := 503; body := error_body "Socket.IO disconnected" |}]
    ∧ phase r = Finished
    ∧ emitted r = [].
Proof.
  apply (request_before_connect_gets_503 "ws://h:1" sample_credentials init
           slow_start_run slow_start_state Monitors sample_body); by vm_compute.
Defined.

(** X7: the timer does not cancel the handler: when the deadline of an
    [/emit] request passes while it still waits for its socket, the
    request is answered 504, and once the login is accepted on the
    connected socket the event is emitted all the same and an ack callback
    is registered. *)
Theorem timed_out_request_still_emits
    (w : Server) (n : nat) (r : Request) (s : SocketId) (st : SocketState)
    (k : nat) (response ok : JSValue) :
  reqs w !! n = Some r →
  endpoint r = Emit →
  phase r = AwaitSocket s →
  timer_armed r = true →
  socks w !! s = Some st →
  promise st = Pending →
  connected st = true →
  logins_pending st = S k →
  get response "ok" = Some ok →
  ToBoolean ok = true →
  ∃ w' r',
    run [TimerFires n; Sock s (login_ack response)] w = Some w'
    ∧ reqs w' !! n = Some r'
    ∧ responses r'
      = responses r ++ [{| status := 504; body := timeout_body (req_event r) |}]
    ∧ emitted r'
      = emitted r ++ [(s, req_event r, nullish (req_payload r) (JObj []))]
    ∧ phase r' = AwaitAck s.
Proof.
  intros Hr Hep Hph Ht Hs Hp Hc Hl Hok Htruthy.
  pose proof (lookup_lt_Some _ _ _ Hr) as Hlt.
  simpl. unfold timer_fires. rewrite Hr. simpl. rewrite Ht. simpl.
  unfold sock. simpl. rewrite Hs. simpl. rewrite Hl, Hok. simpl. rewrite Htruthy.
  rewrite (settle_pending s _ _ (set_logins_pending k st)); [|simpl..].
  2:{ by rewrite list_lookup_alter_eq, Hs. }
  2:{ done. }
  eexists _, _. split; [done|]. simpl.
  change (map ?g ?l) with (g <$> l).
  rewrite list_lookup_fmap, list_lookup_insert_eq by done. simpl.
  unfold awaits. simpl. rewrite Hph, bool_decide_eq_true_2 by done.
  unfold resume, socket_connected. simpl.
  rewrite !list_lookup_alter_eq, Hs. simpl. rewrite Hc, Hep. simpl.
  done.
Qed.

Lemma timed_out_request_still_emits_witness :
  ∃ w' r',
    run [TimerFires 0; Sock 0 (login_ack ok_true)] slow_login_state = Some w'
    ∧ reqs w' !! 0 = Some r'
    ∧ responses r'
      = responses slow_login_request
        ++ [{| status := 504; body := timeout_body (req_event slow_login_request) |}]
    ∧ emitted r'
      = emitted slow_login_request
        ++ [(0, req_event slow_login_request,
             nullish (req_payload slow_login_request) (JObj []))]
    ∧ phase r' = AwaitAck 0.
Proof.
  apply (timed_out_request_still_emits slow_login_state 0 slow_login_request 0
           slow_login_socket 0 ok_true (JBool true)); by vm_compute.
Defined.

(** A request that waits for socket [s] and has no timer is left alone by
    every turn that does not settle the promise of [s]. *)
Lemma step_waiting_request (ev : Event) (w w' : Server) (s : SocketId)
    (n : nat) (r : Request) :
  step ev w = Some w' →
  reqs w !! n = Some r →
  phase r = AwaitSocket s →
  timer_armed r = false →
  settles s ev = false →
  reqs w' !! n = Some r.
Proof.
  intros Hstep Hr Hph Ht Hset.
  assert (∀ s0 p w0, s0 ≠ s → reqs w0 = reqs w →
            reqs (settle s0 p w0) !! n = Some r) as Hother.
  { intros s0 p w0 Hne Hw0. unfold settle.
    destruct (socks w0 !! s0) as [st0|]; [|congruence].
    destruct (promise st0); try congruence.
    simpl. change (map ?g ?l) with (g <$> l). rewrite list_lookup_fmap, Hw0, Hr.
    simpl. unfold awaits. rewrite Hph. by rewrite bool_decide_eq_false_2. }
  destruct ev as [ep body|s0 sev|k|k ack]; simpl in Hstep.
  - injection Hstep as <-. destruct (http_reqs ep body w) as (r0 & -> & _).
    by apply lookup_app_l_Some.
  - unfold sock in Hstep.
    destruct (socks w !! s0) as [st|] eqn:Hs0; simpl in Hstep; [|done].
    destruct sev as [|reason|p| |response]; simpl in Hset.
    + by injection Hstep as <-.
    + injection Hstep as <-. apply bool_decide_eq_false in Hset. by apply Hother.
    + destruct (sockets w !! sock_uri st) as [e0|]; simpl in Hstep; [|done].
      destruct (push_entry p e0) as [e1|] eqn:Hpush; simpl in Hstep; [|done].
      by injection Hstep as <-.
    + by injection Hstep as <-.
    + destruct (logins_pending st) as [|k]; [done|].
      destruct (get response "ok") as [ok|]; simpl in Hstep; [|done].
      injection Hstep as <-. apply bool_decide_eq_false in Hset.
      destruct (ToBoolean ok); by apply Hother.
  - unfold timer_fires in Hstep.
    destruct (reqs w !! k) as [req|] eqn:Hk; simpl in Hstep; [|done].
    destruct (timer_armed req) eqn:Hta; [|done]. injection Hstep as <-. simpl.
    rewrite list_lookup_insert_ne; [done|]. intros ->. congruence.
  - unfold ack_arrives in Hstep.
    destruct (reqs w !! k) as [req|] eqn:Hk; simpl in Hstep; [|done].
    destruct (phase req) eqn:Hpk; try done.
    destruct (get ack "ok"); simpl in Hstep; [|done].
    injection Hstep as <-. simpl.
    rewrite list_lookup_insert_ne; [done|]. intros ->. congruence.
Qed.

(** X8: a connection alone never answers: a [/monitors] or [/groups]
    request that waits for socket [s] is left waiting, without a response,
    by every run in which [s] neither disconnects nor gets the outcome of
    a login, even though [s] connects, is asked to log in, receives pushes
    and other requests arrive. *)
Theorem request_waits_without_login
    (evs : list Event) (w w' : Server) (s : SocketId) (n : nat) (r : Request) :
  run evs w = Some w' →
  reqs w !! n = Some r →
  phase r = AwaitSocket s →
  timer_armed r = false →
  forallb (λ ev, negb (settles s ev)) evs = true →
  reqs w' !! n = Some r.
Proof.
  revert w. induction evs as [|ev evs IH]; intros w Hrun Hr Hph Ht Hno;
    simpl in Hrun, Hno.
  - by injection Hrun as <-.
  - destruct (step ev w) as [w1|] eqn:Hstep; simpl in Hrun; [|done].
    apply andb_prop in Hno as [Hev Hevs]. apply negb_true_iff in Hev.
    eapply IH; try done.
    by eapply step_waiting_request.
Qed.

Lemma request_waits_without_login_witness :
  reqs no_login_state !! 0 = Some waiting_request.
Proof.
  apply (request_waits_without_login no_login_run waiting_state no_login_state 0 0
           waiting_request); by vm_compute.
Defined.

(** X9: once the promise of a socket is settled, what the transport
    reports about the socket (connect, disconnect, login demands and the
    outcome of a repeated login) changes neither a request nor the
    registry: a login refused after a reconnect goes unnoticed. *)
Theorem settled_socket_lifecycle_is_silent
    (w w' : Server) (s : SocketId) (st : SocketState) (ev : SockEvent) :
  socks w !! s = Some st →
  promise st ≠ Pending →
  is_lifecycle ev = true →
  step (Sock s ev) w = Some w' →
  reqs w' = reqs w
  ∧ sockets w' = sockets w
  ∧ ∃ st', socks w' !! s = Some st' ∧ promise st' = promise st.
Proof.
  intros Hs Hp Hlc Hstep. simpl in Hstep. unfold sock in Hstep.
  rewrite Hs in Hstep. simpl in Hstep.
  assert (∀ f : SocketState → SocketState, (∀ x, promise (f x) = promise x) →
            ∀ p, settle s p (set_socks (alter f s) w) = set_socks (alter f s) w)
    as Hsettled.
  { intros f Hf p. apply (settle_settled s p _ (f st)).
    - simpl. by rewrite list_lookup_alter_eq, Hs.
    - by rewrite Hf. }
  assert (∀ f : SocketState → SocketState, (∀ x, promise (f x) = promise x) →
            ∃ st', socks (set_socks (alter f s) w) !! s = Some st'
                   ∧ promise st' = promise st) as Hlook.
  { intros f Hf. exists (f st). simpl. by rewrite list_lookup_alter_eq, Hs. }
  destruct ev as [|reason|p| |response]; try done.
  - injection Hstep as <-. split; [done|]. split; [done|]. by apply Hlook.
  - injection Hstep as <-. rewrite Hsettled by done.
    split; [done|]. split; [done|]. by apply Hlook.
  - injection Hstep as <-. split; [done|]. split; [done|]. by apply Hlook.
  - destruct (logins_pending st) as [|k]; [done|].
    destruct (get response "ok") as [ok|]; simpl in Hstep; [|done].
    injection Hstep as <-.
    destruct (ToBoolean ok); rewrite Hsettled by done;
      (split; [done|]; split; [done|]; by apply Hlook).
Qed.

Lemma settled_socket_lifecycle_is_silent_witness :
  ∃ w', step (Sock 0 (disconnect (JStr "ping timeout"))) sample_state = Some w'
        ∧ reqs w' = reqs sample_state
        ∧ sockets w' = sockets sample_state
        ∧ ∃ st', socks w' !! 0 = Some st' ∧ promise st' = promise listed_socket.
Proof.
  eexists. split; [by vm_compute|].
  apply (settled_socket_lifecycle_is_silent sample_state _ 0 listed_socket
           (disconnect (JStr "ping timeout"))); by vm_compute.
Defined.

(** X10: the cache outlives the connection: after a disconnect and a
    reconnect of a socket the registry is what it was, and a [/monitors]
    request that reuses the socket is answered with the list cached
    before the disconnect. *)
Theorem cache_survives_reconnect
    (w : Server) (s : SocketId) (st : SocketState) (reason : JSValue) :
  socks w !! s = Some st →
  ∃ w',
    run [Sock s (disconnect reason); Sock s connect] w = Some w'
    ∧ sockets w' = sockets w
    ∧ ∀ r e, endpoint r = Monitors →
        sockets w !! ToPropertyKey (req_uri r) = Some e →
        responses (resume w' s r)
        = responses r ++ [{| status := 200; body := monitors_body (monitors e) |}].
Proof.
  intros Hs. simpl. unfold sock. rewrite Hs. simpl.
  set (w1 := settle s (Rejected reason) (set_socks (alter (set_connected false) s) w)).
  destruct (settle_socks_lookup s s (Rejected reason)
              (set_socks (alter (set_connected false) s) w) (set_connected false st))
    as (st1 & Hst1 & _).
  { simpl. by rewrite list_lookup_alter_eq, Hs. }
  fold w1 in Hst1. rewrite Hst1. simpl.
  eexists. split; [done|]. simpl. unfold w1. rewrite settle_sockets. simpl.
  split; [done|]. intros r e Hep He.
  unfold resume, socket_connected. simpl.
  fold w1. rewrite list_lookup_alter_eq, Hst1. simpl.
  rewrite Hep. unfold w1. rewrite settle_sockets. simpl. by rewrite He.
Qed.

Lemma cache_survives_reconnect_witness :
  ∃ w',
    run [Sock 0 (disconnect (JStr "transport close")); Sock 0 connect] listed_state
    = Some w'
    ∧ sockets w' = sockets listed_state
    ∧ ∀ r e, endpoint r = Monitors →
        sockets listed_state !! ToPropertyKey (req_uri r) = Some e →
        responses (resume w' 0 r)
        = responses r ++ [{| status := 200; body := monitors_body (monitors e) |}].
Proof.
  apply (cache_survives_reconnect listed_state 0 listed_socket). by vm_compute.
Defined.



(** ** Reading the cache back *)

Section cache_round_trips.
Implicit Types (o : JSObject) (k : string) (v : JSValue).



Lemma obj_get_delete_eq o k : obj_get (obj_delete o k) k = JUndefined.
Proof. by rewrite obj_get_lookup, obj_delete_to_map, lookup_delete_eq. Qed.

Lemma obj_get_delete_ne o k k' : k' ≠ k → obj_get (obj_delete o k) k' = obj_get o k'.
Proof.
  intros Hne. rewrite !obj_get_lookup, obj_delete_to_map.
  by rewrite lookup_delete_ne.
Qed.


Lemma obj_delete_keys o k : k ∉ (obj_delete o k).*1.
Proof.
  unfold obj_delete. intros ([k0 v0] & Hk & Hin)%list_elem_of_fmap.
  apply list_elem_of_filter in Hin as [Hne _]. simpl in *. congruence.
Qed.


End cache_round_trips.


Lemma push_entry_delete (monitorId : JSValue) (e e' : Entry) :
  push_entry (deleteMonitorFromList monitorId) e = Some e' →
  (is_array e = true → ToPropertyKey monitorId ≠ "length")
  ∧ e' = {| socket := socket e;
            monitors := obj_delete (monitors e) (ToPropertyKey monitorId);
            is_array := is_array e |}.
Proof.
  unfold push_entry. simpl. unfold on_deleteMonitorFromList. intros Hpush.
  destruct (is_array e); simpl in *.
  - case_bool_decide as Hlen; [done|]. injection Hpush as <-. by split.
  - injection Hpush as <-. by split.
Qed.



(** X13: when the [deleteMonitorFromList] listener returns, the key of
    the ID reads [undefined] and every other key reads as before; a second
    delete of the ID changes nothing, and the delete of an ID that is not
    in the cache leaves the entry as it is.  (IDs are strings or integers
    that JSON carries exactly.) *)
Theorem delete_reads_back (monitorId : JSValue) (e e' : Entry) :
  push_entry (deleteMonitorFromList monitorId) e = Some e' →
  exact_key monitorId = true →
  obj_get (monitors e') (ToPropertyKey monitorId) = JUndefined
  ∧ (∀ k, k ≠ ToPropertyKey monitorId →
       obj_get (monitors e') k = obj_get (monitors e) k)
  ∧ push_entry (deleteMonitorFromList monitorId) e' = Some e'
  ∧ (ToPropertyKey monitorId ∉ (monitors e).*1 → e' = e).
Proof.
  intros Hpush _.
  destruct (push_entry_delete _ _ _ Hpush) as [Hlen ->]. simpl.
  split; [apply obj_get_delete_eq|]. split.
  - intros k Hk. by apply obj_get_delete_ne.
  - split.
    + unfold push_entry. simpl. unfold on_deleteMonitorFromList.
      rewrite (obj_delete_absent _ _ (obj_delete_keys _ _)).
      destruct (is_array e) eqn:Harr; simpl; [|done].
      rewrite bool_decide_eq_false_2 by auto. done.
    + intros Habsent. rewrite (obj_delete_absent _ _ Habsent). by destruct e.
Qed.

Lemma delete_reads_back_witness :
  obj_get (monitors one_entity_entry) (ToPropertyKey (JStr "7")) = JUndefined
  ∧ (∀ k, k ≠ ToPropertyKey (JStr "7") →
       obj_get (monitors one_entity_entry) k = obj_get (monitors upserted_entry) k)
  ∧ push_entry (deleteMonitorFromList (JStr "7")) one_entity_entry
    = Some one_entity_entry
  ∧ (ToPropertyKey (JStr "7") ∉ (monitors upserted_entry).*1 →
       one_entity_entry = upserted_entry).
Proof.
  apply (delete_reads_back (JStr "7") upserted_entry one_entity_entry); by vm_compute.
Defined.



(** ** Listeners and handlers that throw *)

Lemma not_nullish_is_nullish (m : JSValue) : not_nullish m ↔ is_nullish m = false.
Proof. unfold not_nullish. destruct m; simpl; split; try done; intros [? ?]; done. Qed.

Lemma get_nullish (m : JSValue) (k : string) : is_nullish m = true → get m k = None.
Proof. by destruct m. Qed.

Lemma js_filter_nullish (l : list JSValue) :
  Exists (λ m, is_nullish m = true) l → js_filter is_group l = None.
Proof.
  induction 1 as [m l Hm|m l _ IH]; simpl.
  - unfold is_group. by rewrite (get_nullish _ _ Hm).
  - rewrite IH. by destruct (is_group m).
Qed.

(** X15: [/groups] throws exactly when the cache holds an entry that is
    [undefined] or [null] (a full list may bring one): the filter callback
    reads [m.type] of it.  [/monitors] has no such failure. *)
Theorem groups_throw_iff_nullish_entry (cache : JSObject) :
  groups_body cache = None
  ↔ Exists (λ m, is_nullish m = true) (Object_values cache).
Proof.
  split.
  - intros Hnone.
    destruct (decide (Exists (λ m, is_nullish m = true) (Object_values cache)))
      as [|Hno]; [done|].
    apply not_Exists_Forall in Hno; [|intros m; apply _].
    assert (Forall not_nullish (Object_values cache)) as Hall.
    { eapply Forall_impl; [exact Hno|]. intros m Hm. simpl in Hm.
      apply not_nullish_is_nullish. by destruct (is_nullish m). }
    unfold groups_body in Hnone.
    rewrite (js_filter_total _ Hall) in Hnone. simpl in Hnone.
    rewrite js_map_total in Hnone; [done|].
    clear -Hall. induction Hall as [|m l Hm _ IH]; [constructor|].
    rewrite filter_cons. case_decide; [by constructor|done].
  - intros Hex. unfold groups_body. by rewrite (js_filter_nullish _ Hex).
Qed.




(** ** Sockets are kept *)

Lemma registry_change_grows (w w' : Server) :
  registry_change w w' →
  uris w `prefix_of` uris w'
  ∧ (size (sockets w) = length (uris w) → size (sockets w') = length (uris w')).
Proof.
  intros [Hs Hu|uri Hnone Hs Hu|uri e e1 He Hsock Hs Hu]; rewrite Hs, Hu.
  - done.
  - split; [by apply prefix_app_r|]. intros Hsize.
    rewrite map_size_insert_None by done. rewrite length_app. simpl. lia.
  - split; [done|]. intros Hsize. by rewrite map_size_insert_Some.
Qed.

Lemma run_grows (evs : list Event) (w w' : Server) :
  run evs w = Some w' →
  uris w `prefix_of` uris w'
  ∧ (size (sockets w) = length (uris w) → size (sockets w') = length (uris w')).
Proof.
  revert w. induction evs as [|ev evs IH]; intros w Hrun; simpl in Hrun.
  - by injection Hrun as <-.
  - destruct (step ev w) as [w1|] eqn:Hstep; simpl in Hrun; [|done].
    destruct (registry_change_grows w w1) as [Hp1 Hs1];
      [by eapply step_registry_change|].
    destruct (IH _ Hrun) as [Hp2 Hs2].
    split; [by etrans|]. auto.
Qed.

(** X17: sockets are never released: along every run the sockets created
    so far stay, in their order, and only new ones are added; and in every
    state the server reaches the registry has exactly one entry per socket
    created. *)
Theorem sockets_are_never_released (evs evs' : list Event) (w w' : Server) :
  run evs init = Some w →
  run evs' w = Some w' →
  uris w `prefix_of` uris w'
  ∧ size (sockets w) = length (uris w)
  ∧ size (sockets w') = length (uris w').
Proof.
  intros Hrun Hrun'.
  destruct (run_grows _ _ _ Hrun) as [_ Hs]. specialize (Hs eq_refl).
  destruct (run_grows _ _ _ Hrun') as [Hp Hs']. auto.
Qed.

Lemma sockets_are_never_released_witness :
  uris sample_state `prefix_of` uris two_destinations
  ∧ size (sockets sample_state) = length (uris sample_state)
  ∧ size (sockets two_destinations) = length (uris two_destinations).
Proof.
  apply (sockets_are_never_released sample_run
           [Http Monitors [("uri", JStr "ws://other:2");
                           ("credentials", sample_credentials)]]);
    by vm_compute.
Defined.
